(** * fintopy.prices: the [prices] accessor of a pandas Series

    A shallow embedding of [src/fintopy/prices.py] and of the pandas
    primitives it calls, followed by the properties of the accessor.

    Numbers.  A pandas value is a binary64 float.  The embedding keeps
    what is not a number there, the missing-data marker [NaN] and the two
    infinities, with the arithmetic and the comparisons binary64 gives
    them, and takes every finite value as an exact rational in lowest
    terms.  Rounding, overflow and underflow of finite values and the sign
    of a zero are not modelled (a zero divisor counts as [+0.0]).  The
    properties below are kept to those that binary64 shares with this
    arithmetic.

    Index.  An index is a list of 64-bit-style integer labels tagged with
    its dtype: nanoseconds since the epoch for a DatetimeIndex, nanoseconds
    for a TimedeltaIndex, plain integers for an integer index. *)

From Stdlib Require Import ZArith QArith Qreduction List String Bool Lia Lqa.
From Stdlib Require Import Sorted Permutation.
Import ListNotations.
Open Scope Z_scope.

(* ------------------------------------------------------------------ *)
(** ** Outcomes of a Python call *)

Inductive exn : Type :=
| TypeError (msg : string)
| ValueError (msg : string)
| IndexError
| AttributeError
| ZeroDivisionError.

Inductive outcome (A : Type) : Type :=
| Returns (a : A)
| Raises (e : exn).

Arguments Returns {A} a.
Arguments Raises {A} e.

Definition obind {A B : Type} (m : outcome A) (k : A -> outcome B) : outcome B :=
  match m with
  | Returns a => k a
  | Raises e => Raises e
  end.

Declare Scope outcome_scope.
Delimit Scope outcome_scope with outcome.
Notation "x <- m ;; k" := (obind m (fun x => k))
  (at level 61, m at next level, right associativity) : outcome_scope.
Notation "m ;;; k" := (obind m (fun _ => k))
  (at level 61, right associativity) : outcome_scope.

(* ------------------------------------------------------------------ *)
(** ** Values *)

Inductive value : Type :=
| NaN
| PInf
| NInf
| Fin (q : Q).

Definition of_int (z : Z) : value := Fin (inject_Z z).

(** [v >= w], [v > w]: a comparison with NaN is false. *)
Definition ge (v w : value) : bool :=
  match v, w with
  | NaN, _ | _, NaN => false
  | PInf, _ => true
  | _, NInf => true
  | NInf, _ => false
  | Fin _, PInf => false
  | Fin a, Fin b => Qle_bool b a
  end.

Definition gt (v w : value) : bool :=
  match v, w with
  | NaN, _ | _, NaN => false
  | _, _ => negb (ge w v)
  end.

Definition isna (v : value) : bool :=
  match v with NaN => true | _ => false end.

Definition notna (v : value) : bool := negb (isna v).

(** The infinity of a sign. *)
Definition infinity (positive : bool) : value := if positive then PInf else NInf.

(** An infinity times a finite number: NaN when the number is zero. *)
Definition infinity_times (positive : bool) (b : Q) : value :=
  match (b ?= 0)%Q with
  | Eq => NaN
  | Gt => infinity positive
  | Lt => infinity (negb positive)
  end.

(** Unary minus. *)
Definition vneg (v : value) : value :=
  match v with
  | NaN => NaN
  | PInf => NInf
  | NInf => PInf
  | Fin a => Fin (- a)
  end.

Definition vadd (v w : value) : value :=
  match v, w with
  | NaN, _ | _, NaN => NaN
  | PInf, NInf | NInf, PInf => NaN
  | PInf, _ | _, PInf => PInf
  | NInf, _ | _, NInf => NInf
  | Fin a, Fin b => Fin (Qred (a + b))
  end.

Definition vsub (v w : value) : value :=
  match v, w with
  | NaN, _ | _, NaN => NaN
  | PInf, PInf | NInf, NInf => NaN
  | PInf, _ => PInf
  | NInf, _ => NInf
  | Fin _, PInf => NInf
  | Fin _, NInf => PInf
  | Fin a, Fin b => Fin (Qred (a - b))
  end.

Definition vmul (v w : value) : value :=
  match v, w with
  | NaN, _ | _, NaN => NaN
  | PInf, PInf | NInf, NInf => PInf
  | PInf, NInf | NInf, PInf => NInf
  | PInf, Fin b | Fin b, PInf => infinity_times true b
  | NInf, Fin b | Fin b, NInf => infinity_times false b
  | Fin a, Fin b => Fin (Qred (a * b))
  end.

(** True division of floats.  An infinity over an infinity is NaN, a
    number over an infinity is zero, and [x / 0] is NaN when [x] is zero
    and the infinity of the sign of [x] otherwise. *)
Definition vdiv (v w : value) : value :=
  match v, w with
  | NaN, _ | _, NaN => NaN
  | PInf, PInf | PInf, NInf | NInf, PInf | NInf, NInf => NaN
  | PInf, Fin b => infinity (Qle_bool 0 b)
  | NInf, Fin b => infinity (negb (Qle_bool 0 b))
  | Fin _, PInf | Fin _, NInf => Fin 0
  | Fin a, Fin b =>
      if Qeq_bool b 0
      then match (a ?= 0)%Q with
           | Eq => NaN
           | Gt => PInf
           | Lt => NInf
           end
      else Fin (Qred (a / b))
  end.

(** The larger and the smaller of two values that are not NaN. *)
Definition vmax (v w : value) : value := if ge v w then v else w.
Definition vmin (v w : value) : value := if ge w v then v else w.

(* ------------------------------------------------------------------ *)
(** ** pandas: Index and Series *)

Module pd.

Inductive index_dtype : Type :=
| datetime64_ns
| timedelta64_ns
| int64.

Record Index : Type := mkIndex {
  dtype : index_dtype;
  labels : list Z
}.

Record Series : Type := mkSeries {
  index_dtype_of : index_dtype;
  rows : list (Z * value)
}.

Definition index (s : Series) : Index :=
  {| dtype := index_dtype_of s; labels := map fst (rows s) |}.

Definition values (s : Series) : list value := map snd (rows s).

Definition len (s : Series) : nat := List.length (rows s).

(** [Index.inferred_type]. *)
Definition inferred_type (i : Index) : string :=
  match dtype i with
  | datetime64_ns => "datetime64"
  | timedelta64_ns => "timedelta64"
  | int64 => "integer"
  end.

Fixpoint mem (k : Z) (l : list Z) : bool :=
  match l with
  | [] => false
  | x :: t => (k =? x) || mem k t
  end.

Fixpoint unique (l : list Z) : bool :=
  match l with
  | [] => true
  | x :: t => negb (mem x t) && unique t
  end.

(** [Index.is_unique]. *)
Definition is_unique (i : Index) : bool := unique (labels i).

(** [series > x], a boolean series, and [.all()] of it. *)
Definition series_gt (s : Series) (x : value) : list bool :=
  map (fun v => gt v x) (values s).

Definition all (l : list bool) : bool := forallb (fun b => b) l.

(** [Series.sort_index()]: a new series, rows in ascending order of their
    label.  Insertion from the right keeps rows of equal label in their
    order; on a unique index every sorting procedure gives this result. *)
Fixpoint insert_row (r : Z * value) (l : list (Z * value)) : list (Z * value) :=
  match l with
  | [] => [r]
  | x :: t => if fst r <=? fst x then r :: x :: t else x :: insert_row r t
  end.

Fixpoint sort_rows (l : list (Z * value)) : list (Z * value) :=
  match l with
  | [] => []
  | r :: t => insert_row r (sort_rows t)
  end.

Definition sort_index (s : Series) : Series :=
  {| index_dtype_of := index_dtype_of s; rows := sort_rows (rows s) |}.

(** Positional access with Python's negative positions; out of bounds
    raises IndexError. *)
Definition at_position {A : Type} (l : list A) (i : Z) : outcome A :=
  let n := Z.of_nat (List.length l) in
  let j := if i <? 0 then n + i else i in
  if (j <? 0) || (n <=? j) then Raises IndexError
  else match nth_error l (Z.to_nat j) with
       | Some a => Returns a
       | None => Raises IndexError
       end.

(** [series.iat[i]] and [series.iloc[i]] at an integer position. *)
Definition iat (s : Series) (i : Z) : outcome value := at_position (values s) i.
Definition iloc (s : Series) (i : Z) : outcome value := at_position (values s) i.

(** [index[i]]. *)
Definition index_at (ix : Index) (i : Z) : outcome Z := at_position (labels ix) i.

(** The same index with other values. *)
Definition with_values (s : Series) (vs : list value) : Series :=
  {| index_dtype_of := index_dtype_of s;
     rows := combine (map fst (rows s)) vs |}.

(** [series.divide(x)], [series.multiply(x)], [series.mul(x)] with a scalar. *)
Definition divide (s : Series) (x : value) : Series :=
  with_values s (map (fun v => vdiv v x) (values s)).

Definition multiply (s : Series) (x : value) : Series :=
  with_values s (map (fun v => vmul v x) (values s)).

Definition mul (s : Series) (x : value) : Series := multiply s x.

(** [a.sub(b)], [a.div(b)] of two series.  pandas aligns the operands on
    their labels; here both operands always carry the index of the stored
    series, so the operation is positional. *)
Definition sub (a b : Series) : Series :=
  with_values a (map (fun p => vsub (fst p) (snd p)) (combine (values a) (values b))).

Definition div (a b : Series) : Series :=
  with_values a (map (fun p => vdiv (fst p) (snd p)) (combine (values a) (values b))).

(** [series - x] with a scalar. *)
Definition sub_scalar (s : Series) (x : value) : Series :=
  with_values s (map (fun v => vsub v x) (values s)).

(** [Series.cummax()] (skipna): the running maximum of the values seen so
    far; a NaN stays NaN and does not enter the maximum. *)
Fixpoint cummax_from (acc : option value) (l : list value) : list value :=
  match l with
  | [] => []
  | NaN :: t => NaN :: cummax_from acc t
  | v :: t =>
      let m := match acc with None => v | Some a => vmax a v end in
      m :: cummax_from (Some m) t
  end.

Definition cummax (s : Series) : Series :=
  with_values s (cummax_from None (values s)).

(** [Series.max()] and [Series.min()] (skipna): NaN when no value is left. *)
Fixpoint reduce (f : value -> value -> value) (acc : option value) (l : list value) : value :=
  match l with
  | [] => match acc with None => NaN | Some a => a end
  | NaN :: t => reduce f acc t
  | v :: t => reduce f (Some (match acc with None => v | Some a => f a v end)) t
  end.

Definition max (s : Series) : value := reduce vmax None (values s).
Definition min (s : Series) : value := reduce vmin None (values s).

(** [Series.shift(periods)]: the values move [periods] positions towards
    the end (towards the start when negative), the index stays, and the
    positions left free hold NaN. *)
Definition shift_values (periods : Z) (l : list value) : list value :=
  let n := List.length l in
  if 0 <=? periods
  then firstn n (repeat NaN (Z.to_nat periods) ++ l)
  else skipn (Z.to_nat (- periods)) l ++ repeat NaN (Nat.min (Z.to_nat (- periods)) n).

Definition shift (s : Series) (periods : Z) : Series :=
  with_values s (shift_values periods (values s)).

(** [Series.ffill()]: a NaN takes the last value before it. *)
Fixpoint ffill_from (last : value) (l : list value) : list value :=
  match l with
  | [] => []
  | NaN :: t => last :: ffill_from last t
  | v :: t => v :: ffill_from v t
  end.

Definition ffill (s : Series) : Series :=
  with_values s (ffill_from NaN (values s)).

(** [Series.pct_change(periods)]: the series, forward-filled, divided by
    itself shifted, minus one. *)
Definition pct_change (s : Series) (periods : Z) : Series :=
  let data := ffill s in
  sub_scalar (div data (shift data periods)) (of_int 1).

(** [Series.diff(periods)]. *)
Definition diff (s : Series) (periods : Z) : Series :=
  sub s (shift s periods).

(** [Series.dropna()]: the rows whose value is not NaN. *)
Definition dropna (s : Series) : Series :=
  {| index_dtype_of := index_dtype_of s;
     rows := filter (fun r => notna (snd r)) (rows s) |}.

(** [Series.apply(f)]. *)
Definition apply (s : Series) (f : value -> value) : Series :=
  with_values s (map f (values s)).

(** [(index[-1] - index[0]).days]: the difference of two timestamps (or of
    two timedeltas) is a Timedelta, whose [days] are its whole days,
    rounded down; the difference of two integers has no [days]. *)
Definition ns_per_day : Z := 86400 * 1000000000.

Definition days_between (ix : Index) (last first : Z) : outcome Z :=
  match dtype ix with
  | int64 => Raises AttributeError
  | _ => Returns ((last - first) / ns_per_day)
  end.

End pd.

(* ------------------------------------------------------------------ *)
(** ** Python scalars *)

(** [x / d] for Python integers: a float, or ZeroDivisionError. *)
Definition int_truediv (x d : Z) : outcome value :=
  if d =? 0 then Raises ZeroDivisionError
  else Returns (Fin (Qred (inject_Z x / inject_Z d))).

(* ------------------------------------------------------------------ *)
(** ** The accessor *)

Record PricesSeriesAccessor : Type := mkAccessor {
  _series : pd.Series
}.

(** A method runs on [self]: it ends in an outcome and leaves an accessor. *)
Definition M (A : Type) : Type :=
  PricesSeriesAccessor -> outcome A * PricesSeriesAccessor.

Definition ret {A : Type} (a : A) : M A := fun self => (Returns a, self).

Definition bind {A B : Type} (m : M A) (k : A -> M B) : M B :=
  fun self =>
    match m self with
    | (Returns a, self') => k a self'
    | (Raises e, self') => (Raises e, self')
    end.

(** Reading [self._series]. *)
Definition self_series : M pd.Series := fun self => (Returns (_series self), self).

Definition lift {A : Type} (o : outcome A) : M A := fun self => (o, self).

Declare Scope method_scope.
Delimit Scope method_scope with method.
Notation "x <- m ;; k" := (bind m (fun x => k))
  (at level 61, m at next level, right associativity) : method_scope.

(** What a call returns, and the accessor after it. *)
Definition result {A : Type} (m : M A) (self : PricesSeriesAccessor) : outcome A :=
  fst (m self).
Definition after {A : Type} (m : M A) (self : PricesSeriesAccessor) : PricesSeriesAccessor :=
  snd (m self).

Definition _validate (series : pd.Series) : outcome unit :=
  if negb (pd.inferred_type (pd.index series) =? "datetime64")%string then
    Raises (TypeError "The series index must be a DateTimeIndex.")
  else if negb (pd.is_unique (pd.index series)) then
    Raises (ValueError "The series index cannot have duplicates.")
  else if negb (pd.all (pd.series_gt series (of_int 0))) then
    Raises (ValueError "The series cannot have negative prices.")
  else Returns tt.

Definition __init__ (series : pd.Series) : outcome PricesSeriesAccessor :=
  (_validate series ;;;
   Returns {| _series := pd.sort_index series |})%outcome.

Section Methods.

(** Host functions the module calls and does not define: [numpy.log],
    the float power [**] and [Series.asfreq]. *)
Variable np_log : value -> value.
Variable pow : value -> value -> value.
Variable asfreq : pd.Series -> string -> option string -> outcome pd.Series.

Definition set_frequency (freq : string) (method : option string) : M pd.Series :=
  (let freq := if (freq =? "BW")%string then "W-FRI"%string else freq in
   s <- self_series ;;
   lift (asfreq s freq method))%method.

Definition rebase (base : Z) : M pd.Series :=
  (s <- self_series ;;
   first <- lift (pd.iloc s 0) ;;
   ret (pd.multiply (pd.divide s first) (of_int base)))%method.

Definition log_returns (period : Z) (dropna : bool) : M pd.Series :=
  (s <- self_series ;;
   if dropna
   then ret (pd.dropna (pd.diff (pd.apply s np_log) period))
   else ret (pd.diff (pd.apply s np_log) period))%method.

Definition pct_returns (period : Z) (dropna : bool) : M pd.Series :=
  (s <- self_series ;;
   if dropna
   then ret (pd.dropna (pd.pct_change s period))
   else ret (pd.pct_change s period))%method.

Definition abs_return : M value :=
  (s <- self_series ;;
   last <- lift (pd.iat s (-1)) ;;
   first <- lift (pd.iat s 0) ;;
   ret (vsub (vdiv last first) (of_int 1)))%method.

(** [(self._series.index[-1] - self._series.index[0]).days]. *)
Definition elapsed_days : M Z :=
  (s <- self_series ;;
   last <- lift (pd.index_at (pd.index s) (-1)) ;;
   first <- lift (pd.index_at (pd.index s) 0) ;;
   lift (pd.days_between (pd.index s) last first))%method.

Definition annualized_return (base : Z) : M value :=
  (r <- abs_return ;;
   days <- elapsed_days ;;
   ret (vdiv (vmul r (of_int base)) (of_int days)))%method.

Definition cagr (base : Z) : M value :=
  (r <- abs_return ;;
   days <- elapsed_days ;;
   e <- lift (int_truediv base days) ;;
   ret (vsub (pow (vadd (of_int 1) r) e) (of_int 1)))%method.

Definition drawdown (negative : bool) : M pd.Series :=
  (s <- self_series ;;
   if negative
   then ret (pd.mul (pd.div (pd.sub (pd.cummax s) s) (pd.cummax s)) (of_int (-1)))
   else ret (pd.div (pd.sub (pd.cummax s) s) (pd.cummax s)))%method.

Definition max_drawdown (negative : bool) : M value :=
  (if negative
   then (d <- drawdown true ;; ret (pd.min d))
   else (d <- drawdown false ;; ret (pd.max d)))%method.

End Methods.

(** A series with a DatetimeIndex, from its rows. *)
Definition prices (r : list (Z * value)) : pd.Series :=
  {| pd.index_dtype_of := pd.datetime64_ns; pd.rows := r |}.

(** Midnight of day [d] after the epoch. *)
Definition day (d : Z) : Z := d * pd.ns_per_day.

(* ------------------------------------------------------------------ *)
(** ** Vocabulary of the properties *)

(** A finite price. *)
Definition finite (v : value) : Prop := exists q, v = Fin q.

(** A price that passes [series > 0]: a number above zero, or the
    positive infinity. *)
Definition positive (v : value) : Prop :=
  v = PInf \/ exists q, v = Fin q /\ (0 < q)%Q.

(** A price that is zero or negative. *)
Definition non_positive (v : value) : Prop :=
  v = NInf \/ exists q, v = Fin q /\ (q <= 0)%Q.

Definition datetime_indexed (s : pd.Series) : Prop :=
  pd.inferred_type (pd.index s) = "datetime64"%string.

Definition label_le (a b : Z * value) : Prop := fst a <= fst b.

Definition label_lt (a b : Z * value) : Prop := fst a < fst b.

(** The series an accessor holds after a successful construction. *)
Definition stored (s : pd.Series) : pd.Series := pd.sort_index s.

(** The row of [s] with the least label, and the one with the greatest. *)
Definition earliest (s : pd.Series) (k : Z) (v : value) : Prop :=
  In (k, v) (pd.rows s) /\ forall r, In r (pd.rows s) -> k <= fst r.

Definition latest (s : pd.Series) (k : Z) (v : value) : Prop :=
  In (k, v) (pd.rows s) /\ forall r, In r (pd.rows s) -> fst r <= k.

(** The running maximum of a list of numbers, as [cummax] computes it. *)
Definition qmax (a b : Q) : Q := if Qle_bool b a then a else b.

Fixpoint running (acc : option Q) (l : list Q) : list Q :=
  match l with
  | [] => []
  | p :: t =>
      let m := match acc with None => p | Some a => qmax a p end in
      m :: running (Some m) t
  end.

(** [m] is the greatest of the first [i + 1] numbers of [l]. *)
Definition running_maximum (l : list Q) (i : nat) (m : Q) : Prop :=
  In m (firstn (S i) l) /\ Forall (fun x => (x <= m)%Q) (firstn (S i) l).

(** Each price next to the running maximum at its position. *)
Definition peaks (ps : list Q) : list (Q * Q) := combine (running None ps) ps.

(** A price is positive and at most the running maximum next to it. *)
Definition below_peak (x : Q * Q) : Prop := (0 < snd x)%Q /\ (snd x <= fst x)%Q.

(** The drawdown at one position. *)
Definition drawdown_at (x : Q * Q) : value := Fin (Qred ((fst x - snd x) / fst x)).

(** The drawdown series of the prices [ps] an accessor holds. *)
Definition drawdown_of (self : PricesSeriesAccessor) (ps : list Q) : pd.Series :=
  pd.with_values (_series self) (map drawdown_at (peaks ps)).

(** Last price over first price, minus one. *)
Definition total_return (pf pl : Q) : Q := (pl / pf - 1)%Q.

(** Whole days from the first label to the last. *)
Definition whole_days (kf kl : Z) : Z := (kl - kf) / pd.ns_per_day.

(** A price over the first price, times the base. *)
Definition rebased (pf : Q) (base : Z) (p : Q) : value :=
  Fin (Qred (p / pf * inject_Z base)).

(** The stored series of [s], rebased. *)
Definition rebase_of (s : pd.Series) (pf : Q) (ps : list Q) (base : Z) : pd.Series :=
  pd.with_values (stored s) (map (rebased pf base) ps).

(** A method that leaves the accessor as it found it. *)
Definition reads_only {A : Type} (m : M A) : Prop :=
  forall self, after m self = self.

(** A number between [lo] and [hi]. *)
Definition between (lo hi : Q) (v : value) : Prop :=
  exists q, v = Fin q /\ (lo <= q)%Q /\ (q <= hi)%Q.

(** The value [periods] positions before position [i], NaN when there is none. *)
Definition lagged {A : Type} (l : list A) (periods : Z) (i : nat) : option A :=
  let j := Z.of_nat i - periods in
  if (j <? 0) || (Z.of_nat (List.length l) <=? j) then None
  else nth_error l (Z.to_nat j).

Definition or_NaN (o : option value) : value :=
  match o with Some v => v | None => NaN end.

(** The change from the price [periods] positions earlier (when there is one). *)
Definition pct_of (p : Q) (earlier : option Q) : value :=
  match earlier with
  | Some q => Fin (Qred (p / q - 1))
  | None => NaN
  end.

(** The same for two values of any kind. *)
Definition pct_value (v : value) (earlier : option value) : value :=
  match earlier with
  | Some w => vsub (vdiv v w) (of_int 1)
  | None => NaN
  end.

(** The drawdown at one position, from the running maximum and the price. *)
Definition drawdown_value (x : value * value) : value :=
  vdiv (vsub (fst x) (snd x)) (fst x).

(** A value over the first value, times the base. *)
Definition rebased_value (first : value) (base : Z) (v : value) : value :=
  vmul (vdiv v first) (of_int base).

(** [m] is the greatest of the first [i + 1] values of [l]. *)
Definition running_maximum_value (l : list value) (i : nat) (m : value) : Prop :=
  In m (firstn (S i) l) /\ Forall (fun x => ge m x = true) (firstn (S i) l).

(** The drawdown of a list of values: each value next to the running
    maximum at its position. *)
Definition drawdown_values (vs : list value) : list value :=
  map drawdown_value (combine (pd.cummax_from None vs) vs).

(** A number in lowest terms, or a value that is not a number. *)
Definition canonical (v : value) : Prop :=
  match v with
  | Fin q => Qred q = q
  | _ => True
  end.

(** A value that is missing or lies between [lo] and [hi]. *)
Definition missing_or_between (lo hi : Q) (v : value) : Prop :=
  v = NaN \/ exists q, v = Fin q /\ (lo <= q)%Q /\ (q <= hi)%Q.

(** The percentage changes of a list of values, and of the prices [ps]. *)
Definition pct_values (vs : list value) (periods : Z) : list value :=
  map (fun x => vsub (vdiv (fst x) (snd x)) (of_int 1))
      (combine vs (pd.shift_values periods vs)).

Definition pct_change_values (ps : list Q) (periods : Z) : list value :=
  pct_values (map Fin ps) periods.

Definition pct_change_of (self : PricesSeriesAccessor) (ps : list Q) (periods : Z)
  : pd.Series :=
  pd.with_values (_series self) (pct_change_values ps periods).

Definition msg_index : string := "The series index must be a DateTimeIndex.".

Definition msg_duplicates : string := "The series index cannot have duplicates.".

Definition msg_prices : string := "The series cannot have negative prices.".

(** An integer-indexed series whose labels repeat, with a negative price. *)
Definition integer_indexed_sample : pd.Series :=
  {| pd.index_dtype_of := pd.int64;
     pd.rows := [(1, of_int 5); (1, of_int (-7))] |}.

Definition accepted_sample : pd.Series :=
  prices [(day 2, of_int 80); (day 1, of_int 100); (day 3, of_int 120)].

Definition repeated_sample : pd.Series :=
  prices [(day 1, of_int 100); (day 1, of_int 80)].

Definition zero_price_sample : pd.Series :=
  prices [(day 1, of_int 100); (day 2, of_int 0)].

Definition integer_indexed_missing : pd.Series :=
  {| pd.index_dtype_of := pd.int64;
     pd.rows := [(0, of_int 5); (1, NaN)] |}.

Definition missing_sample : pd.Series :=
  prices [(day 1, of_int 100); (day 2, NaN)].

Definition sample_100_80_120 : pd.Series :=
  prices [(day 1, of_int 100); (day 2, of_int 80); (day 3, of_int 120)].

Definition sample_10_20 : pd.Series :=
  prices [(day 1, of_int 10); (day 2, of_int 20)].

(** Two prices half a day apart. *)
Definition half_day_sample : pd.Series :=
  prices [(day 1, of_int 10); (day 1 + 43200 * 1000000000, of_int 20)].

Definition sample_10_20_40 : pd.Series :=
  prices [(day 1, of_int 10); (day 2, of_int 20); (day 3, of_int 40)].

(** An infinite price first, a finite one after it. *)
Definition infinite_first_sample : pd.Series :=
  prices [(day 1, PInf); (day 2, of_int 1)].

(* ------------------------------------------------------------------ *)
(** ** Validation *)

Lemma gt_zero_positive (v : value) : gt v (of_int 0) = true <-> positive v.
Proof.
  unfold positive, gt, of_int. destruct v as [| | |q]; simpl.
  - split; [discriminate | intros [H | (q & H & _)]; discriminate].
  - split; [now left | reflexivity].
  - split; [discriminate | intros [H | (q & H & _)]; discriminate].
  - rewrite negb_true_iff. split.
    + intros H. right. exists q. split; [reflexivity|].
      apply Qnot_le_lt. intros Hle. apply Qle_bool_iff in Hle.
      change (inject_Z 0) with 0%Q in H. congruence.
    + intros [Hq | (q' & Hq & Hlt)]; [discriminate|]. injection Hq as <-.
      apply not_true_is_false. intros Hle. apply Qle_bool_iff in Hle.
      change (inject_Z 0) with 0%Q in Hle. apply (Qlt_not_le _ _ Hlt Hle).
Qed.

Lemma all_series_gt (s : pd.Series) :
  pd.all (pd.series_gt s (of_int 0)) = true <-> Forall positive (pd.values s).
Proof.
  unfold pd.all, pd.series_gt. rewrite forallb_forall, Forall_forall. split.
  - intros H v Hv. apply gt_zero_positive, H, in_map_iff. now exists v.
  - intros H b Hb. apply in_map_iff in Hb as (v & <- & Hv).
    now apply gt_zero_positive, H.
Qed.

Lemma mem_In (k : Z) (l : list Z) : pd.mem k l = true <-> In k l.
Proof.
  induction l as [|x t IH]; simpl.
  - split; [discriminate | tauto].
  - rewrite orb_true_iff, IH, Z.eqb_eq. intuition congruence.
Qed.

Lemma unique_NoDup (l : list Z) : pd.unique l = true <-> NoDup l.
Proof.
  induction l as [|x t IH]; simpl.
  - split; [constructor | reflexivity].
  - rewrite andb_true_iff, negb_true_iff, IH, NoDup_cons_iff.
    rewrite <- mem_In. destruct (pd.mem x t); intuition congruence.
Qed.

Lemma datetime_indexed_dtype (s : pd.Series) :
  datetime_indexed s <-> pd.index_dtype_of s = pd.datetime64_ns.
Proof.
  unfold datetime_indexed, pd.inferred_type, pd.index; simpl.
  destruct (pd.index_dtype_of s); split; congruence.
Qed.

(** When [_validate] returns. *)
Lemma validate_returns (s : pd.Series) :
  _validate s = Returns tt <->
  datetime_indexed s /\ NoDup (pd.labels (pd.index s)) /\ Forall positive (pd.values s).
Proof.
  unfold _validate, datetime_indexed, pd.is_unique.
  rewrite <- unique_NoDup, <- all_series_gt.
  destruct (String.eqb_spec (pd.inferred_type (pd.index s)) "datetime64") as [E|E];
    cbn [negb].
  - destruct (pd.unique (pd.labels (pd.index s))); cbn [negb].
    + destruct (pd.all (pd.series_gt s (of_int 0))); cbn [negb]; intuition congruence.
    + intuition congruence.
  - intuition congruence.
Qed.

Lemma init_returns (s : pd.Series) (a : PricesSeriesAccessor) :
  __init__ s = Returns a <->
  _validate s = Returns tt /\ a = {| _series := pd.sort_index s |}.
Proof.
  unfold __init__. destruct (_validate s) as [[]|]; simpl; intuition congruence.
Qed.

Lemma init_raises (s : pd.Series) (e : exn) :
  _validate s = Raises e -> __init__ s = Raises e.
Proof. unfold __init__. now intros ->. Qed.

(* ------------------------------------------------------------------ *)
(** ** Sorting by label *)

Lemma insert_row_perm (r : Z * value) (l : list (Z * value)) :
  Permutation (r :: l) (pd.insert_row r l).
Proof.
  induction l as [|x t IH]; simpl.
  - reflexivity.
  - destruct (fst r <=? fst x).
    + reflexivity.
    + rewrite perm_swap. now apply perm_skip.
Qed.

Lemma sort_rows_perm (l : list (Z * value)) : Permutation l (pd.sort_rows l).
Proof.
  induction l as [|r t IH]; simpl.
  - constructor.
  - rewrite <- insert_row_perm. now apply perm_skip.
Qed.

Lemma insert_row_sorted (r : Z * value) (l : list (Z * value)) :
  StronglySorted label_le l -> StronglySorted label_le (pd.insert_row r l).
Proof.
  induction 1 as [|x t Hs IH Hx]; simpl.
  - repeat constructor.
  - destruct (Z.leb_spec (fst r) (fst x)) as [Hle|Hgt].
    + constructor; [now constructor|].
      constructor; [exact Hle|].
      eapply Forall_impl; [|exact Hx].
      unfold label_le. intros; lia.
    + constructor; [exact IH|].
      eapply Permutation_Forall; [apply insert_row_perm|].
      constructor; [unfold label_le; lia | exact Hx].
Qed.

Lemma sort_rows_sorted (l : list (Z * value)) : StronglySorted label_le (pd.sort_rows l).
Proof.
  induction l as [|r t IH]; simpl.
  - constructor.
  - now apply insert_row_sorted.
Qed.

(** With no label twice, ascending is strictly ascending. *)
Lemma sorted_unique_strict (l : list (Z * value)) :
  StronglySorted label_le l -> NoDup (map fst l) -> StronglySorted label_lt l.
Proof.
  induction 1 as [|x t Hs IH Hx]; simpl; intros Hnd.
  - constructor.
  - apply NoDup_cons_iff in Hnd as [Hnot Hnd].
    constructor; [now apply IH|].
    rewrite Forall_forall in Hx |- *. intros y Hy.
    specialize (Hx y Hy). unfold label_le, label_lt in *.
    assert (fst x <> fst y) by (intros E; apply Hnot; rewrite E; now apply in_map).
    lia.
Qed.

Lemma sort_rows_labels_NoDup (l : list (Z * value)) :
  NoDup (map fst l) -> NoDup (map fst (pd.sort_rows l)).
Proof.
  apply Permutation_NoDup, Permutation_map, sort_rows_perm.
Qed.

Lemma stored_strictly_ascending (s : pd.Series) :
  _validate s = Returns tt -> StronglySorted label_lt (pd.rows (stored s)).
Proof.
  intros (_ & Hnd & _)%validate_returns. simpl.
  apply sorted_unique_strict; [apply sort_rows_sorted|].
  now apply sort_rows_labels_NoDup.
Qed.

Lemma stored_positive (s : pd.Series) :
  _validate s = Returns tt -> Forall positive (pd.values (stored s)).
Proof.
  intros (_ & _ & Hpos)%validate_returns. unfold pd.values in *. simpl.
  eapply Permutation_Forall; [|exact Hpos].
  apply Permutation_map, sort_rows_perm.
Qed.

(* ------------------------------------------------------------------ *)
(** ** First and last row in ascending order of the labels *)

Lemma NoDup_labels_row (l : list (Z * value)) (k : Z) (v v' : value) :
  NoDup (map fst l) -> In (k, v) l -> In (k, v') l -> v = v'.
Proof.
  induction l as [|[k0 v0] t IH]; simpl; [tauto|].
  intros Hnd%NoDup_cons_iff [E|Hin] [E'|Hin'].
  - congruence.
  - injection E as -> ->. destruct Hnd as [Hnot _]. exfalso. apply Hnot.
    change k with (fst (k, v')). now apply in_map.
  - injection E' as -> ->. destruct Hnd as [Hnot _]. exfalso. apply Hnot.
    change k with (fst (k, v)). now apply in_map.
  - destruct Hnd as [_ Hnd]. now apply IH.
Qed.

Lemma at_position_first {A : Type} (x : A) (t : list A) :
  pd.at_position (x :: t) 0 = Returns x.
Proof.
  unfold pd.at_position. cbn [List.length nth_error Z.to_nat Z.ltb Z.compare].
  destruct (Z.leb_spec (Z.of_nat (S (List.length t))) 0); [lia | reflexivity].
Qed.

Lemma at_position_last {A : Type} (t : list A) (x : A) :
  pd.at_position (t ++ [x]) (-1) = Returns x.
Proof.
  unfold pd.at_position. rewrite length_app. cbn [List.length Z.ltb Z.compare].
  replace (Z.of_nat (List.length t + 1) + -1) with (Z.of_nat (List.length t)) by lia.
  destruct (Z.ltb_spec (Z.of_nat (List.length t)) 0); [lia|].
  destruct (Z.leb_spec (Z.of_nat (List.length t + 1)) (Z.of_nat (List.length t))); [lia|].
  rewrite Nat2Z.id, nth_error_app2, Nat.sub_diag by lia. reflexivity.
Qed.

Lemma sorted_last_greatest (t : list (Z * value)) (x : Z * value) :
  StronglySorted label_le (t ++ [x]) -> Forall (fun y => label_le y x) (t ++ [x]).
Proof.
  induction t as [|y t IH]; simpl; intros H.
  - repeat constructor. unfold label_le. lia.
  - apply StronglySorted_inv in H as [Hs Hy].
    constructor; [|now apply IH].
    rewrite Forall_forall in Hy. apply Hy, in_or_app. right. now left.
Qed.

Section StoredEnds.

Variable s : pd.Series.
Hypothesis Hvalid : _validate s = Returns tt.

Lemma stored_first (k : Z) (v : value) :
  earliest s k v ->
  exists t, pd.rows (stored s) = (k, v) :: t.
Proof.
  intros [Hin Hmin].
  pose proof (sort_rows_sorted (pd.rows s)) as Hsorted.
  pose proof (sort_rows_perm (pd.rows s)) as Hperm.
  apply validate_returns in Hvalid as (_ & Hnd & _).
  change (pd.rows (stored s)) with (pd.sort_rows (pd.rows s)) in *.
  pose proof (Permutation_in _ Hperm Hin) as Hin'.
  destruct (pd.sort_rows (pd.rows s)) as [|[k0 v0] t] eqn:E; [contradiction|].
  exists t. f_equal.
  apply StronglySorted_inv in Hsorted as [_ Hall].
  assert (Hk0 : In (k0, v0) (pd.rows s)).
  { apply (Permutation_in _ (Permutation_sym Hperm)). now left. }
  assert (k0 = k) as ->.
  { specialize (Hmin _ Hk0). simpl in Hmin.
    destruct Hin' as [E'|Hin']; [congruence|].
    rewrite Forall_forall in Hall. specialize (Hall _ Hin').
    unfold label_le in Hall. simpl in Hall. lia. }
  f_equal. exact (NoDup_labels_row _ _ _ _ Hnd Hk0 Hin).
Qed.

Lemma stored_last (k : Z) (v : value) :
  latest s k v ->
  exists t, pd.rows (stored s) = t ++ [(k, v)].
Proof.
  intros [Hin Hmax].
  pose proof (sort_rows_sorted (pd.rows s)) as Hsorted.
  pose proof (sort_rows_perm (pd.rows s)) as Hperm.
  apply validate_returns in Hvalid as (_ & Hnd & _).
  change (pd.rows (stored s)) with (pd.sort_rows (pd.rows s)) in *.
  pose proof (Permutation_in _ Hperm Hin) as Hin'.
  destruct (exists_last (l := pd.sort_rows (pd.rows s))) as (t & [k0 v0] & E).
  { intros E. rewrite E in Hin'. contradiction. }
  rewrite E in *. exists t. do 2 f_equal.
  apply sorted_last_greatest in Hsorted.
  assert (Hk0 : In (k0, v0) (pd.rows s)).
  { apply (Permutation_in _ (Permutation_sym Hperm)), in_or_app. right. now left. }
  assert (k0 = k) as ->.
  { specialize (Hmax _ Hk0). simpl in Hmax.
    rewrite Forall_forall in Hsorted. specialize (Hsorted _ Hin').
    unfold label_le in Hsorted. simpl in Hsorted. lia. }
  f_equal. exact (NoDup_labels_row _ _ _ _ Hnd Hk0 Hin).
Qed.

End StoredEnds.

(* ------------------------------------------------------------------ *)
(** ** Facts about the host primitives *)

Lemma values_length (s : pd.Series) : List.length (pd.values s) = pd.len s.
Proof. apply length_map. Qed.

Lemma values_with_values (s : pd.Series) (vs : list value) :
  List.length vs = pd.len s -> pd.values (pd.with_values s vs) = vs.
Proof.
  unfold pd.values, pd.with_values, pd.len. simpl. intros H.
  revert vs H. induction (pd.rows s) as [|r t IH]; intros [|v vs]; simpl;
    try discriminate; try reflexivity.
  intros [= H]. now rewrite IH.
Qed.

Lemma index_with_values (s : pd.Series) (vs : list value) :
  List.length vs = pd.len s -> pd.index (pd.with_values s vs) = pd.index s.
Proof.
  unfold pd.index, pd.with_values, pd.len. simpl. intros H. f_equal.
  revert vs H. induction (pd.rows s) as [|r t IH]; intros [|v vs]; simpl;
    try discriminate; try reflexivity.
  intros [= H]. now rewrite IH.
Qed.

Lemma len_with_values (s : pd.Series) (vs : list value) :
  List.length vs = pd.len s -> pd.len (pd.with_values s vs) = pd.len s.
Proof.
  intros H. rewrite <- (values_length (pd.with_values s vs)), values_with_values; assumption.
Qed.

Lemma cummax_from_Fin (acc : option Q) (ps : list Q) :
  pd.cummax_from (option_map Fin acc) (map Fin ps) = map Fin (running acc ps).
Proof.
  revert acc. induction ps as [|p t IH]; intros acc; simpl.
  - reflexivity.
  - destruct acc as [a|]; simpl.
    + unfold vmax, qmax, ge. destruct (Qle_bool p a).
      * f_equal. exact (IH (Some a)).
      * f_equal. exact (IH (Some p)).
    + f_equal. exact (IH (Some p)).
Qed.

Lemma running_length (acc : option Q) (l : list Q) :
  List.length (running acc l) = List.length l.
Proof.
  revert acc. induction l as [|p t IH]; intros acc; simpl; [reflexivity|].
  now rewrite IH.
Qed.

Lemma qmax_cases (a b : Q) :
  (qmax a b = a /\ (b <= a)%Q) \/ (qmax a b = b /\ (a <= b)%Q).
Proof.
  unfold qmax. destruct (Qle_bool b a) eqn:E.
  - left. split; [reflexivity | now apply Qle_bool_iff].
  - right. split; [reflexivity|].
    apply Qlt_le_weak, Qnot_le_lt. intros H. apply Qle_bool_iff in H. congruence.
Qed.

Lemma running_from (a : Q) (l : list Q) (i : nat) (m : Q) :
  nth_error (running (Some a) l) i = Some m ->
  In m (a :: firstn (S i) l) /\ Forall (fun x => (x <= m)%Q) (a :: firstn (S i) l).
Proof.
  revert a i. induction l as [|p t IH]; intros a i; simpl.
  - destruct i; discriminate.
  - destruct i as [|i]; simpl.
    + intros [= <-].
      destruct (qmax_cases a p) as [[-> H]|[-> H]].
      * split; [now left|]. repeat constructor; [apply Qle_refl | exact H].
      * split; [right; now left|]. repeat constructor; [exact H | apply Qle_refl].
    + intros H. apply IH in H as [Hin Hall].
      apply Forall_cons_iff in Hall as [Hm Hall].
      destruct (qmax_cases a p) as [[E Hle]|[E Hle]]; rewrite E in *.
      * split.
        { destruct Hin as [<-|Hin]; [now left | right; now right]. }
        constructor; [exact Hm|]. constructor; [|exact Hall].
        eapply Qle_trans; eassumption.
      * split.
        { destruct Hin as [<-|Hin]; [right; now left | right; now right]. }
        constructor; [eapply Qle_trans; eassumption|]. constructor; assumption.
Qed.

Lemma running_is_maximum (l : list Q) (i : nat) (m : Q) :
  nth_error (running None l) i = Some m -> running_maximum l i m.
Proof.
  unfold running_maximum. destruct l as [|p t]; simpl.
  - destruct i; discriminate.
  - destruct i as [|i]; simpl.
    + intros [= <-]. split; [now left|].
      repeat constructor. apply Qle_refl.
    + intros H. now apply running_from in H.
Qed.

Lemma map_fst_combine {A B : Type} (a : list A) (b : list B) :
  List.length a = List.length b -> map fst (combine a b) = a.
Proof.
  revert b. induction a as [|x a IH]; intros [|y b]; simpl; try discriminate; try reflexivity.
  intros [= H]. now rewrite IH.
Qed.

Lemma map_snd_combine {A B : Type} (a : list A) (b : list B) :
  List.length a = List.length b -> map snd (combine a b) = b.
Proof.
  revert b. induction a as [|x a IH]; intros [|y b]; simpl; try discriminate; try reflexivity.
  intros [= H]. now rewrite IH.
Qed.

Lemma nth_error_combine {A B : Type} (a : list A) (b : list B) (i : nat) (x : A) (y : B) :
  nth_error a i = Some x -> nth_error b i = Some y ->
  nth_error (combine a b) i = Some (x, y).
Proof.
  revert b i. induction a as [|x0 a IH]; intros [|y0 b] [|i]; simpl; try discriminate.
  - now intros [= ->] [= ->].
  - apply IH.
Qed.

Lemma with_values_self (s : pd.Series) : pd.with_values s (pd.values s) = s.
Proof.
  destruct s as [dt r]. unfold pd.with_values, pd.values. cbn [pd.index_dtype_of pd.rows].
  f_equal. induction r as [|[k v] t IH]; simpl; [reflexivity | now rewrite IH].
Qed.

Lemma with_values_twice (s : pd.Series) (vs ws : list value) :
  List.length vs = pd.len s ->
  pd.with_values (pd.with_values s vs) ws = pd.with_values s ws.
Proof.
  intros H. pose proof (index_with_values s vs H) as E.
  unfold pd.index, pd.with_values in *. cbn [pd.index_dtype_of pd.rows] in *.
  injection E as E. now rewrite E.
Qed.

Lemma cummax_from_length (acc : option value) (l : list value) :
  List.length (pd.cummax_from acc l) = List.length l.
Proof.
  revert acc. induction l as [|v t IH]; intros acc; simpl; [reflexivity|].
  destruct v; simpl; now rewrite IH.
Qed.

Lemma peaks_fst (ps : list Q) : map fst (peaks ps) = running None ps.
Proof. apply map_fst_combine, running_length. Qed.

Lemma peaks_snd (ps : list Q) : map snd (peaks ps) = ps.
Proof. apply map_snd_combine, running_length. Qed.

Lemma peaks_length (ps : list Q) : List.length (peaks ps) = List.length ps.
Proof. rewrite <- (peaks_snd ps) at 2. symmetry. apply length_map. Qed.

Lemma peaks_from_below (a : Q) (ps : list Q) :
  Forall (fun p => (0 < p)%Q) ps ->
  Forall below_peak (combine (running (Some a) ps) ps).
Proof.
  intros H. revert a. induction H as [|p t Hp _ IH]; intros a; simpl.
  - constructor.
  - constructor; [|apply IH].
    split; simpl; [exact Hp|].
    destruct (qmax_cases a p) as [[-> Hle]|[-> Hle]]; [exact Hle | apply Qle_refl].
Qed.

Lemma peaks_below (ps : list Q) :
  Forall (fun p => (0 < p)%Q) ps -> Forall below_peak (peaks ps).
Proof.
  unfold peaks. destruct 1 as [|p t Hp Ht]; simpl.
  - constructor.
  - constructor; [|now apply peaks_from_below].
    split; simpl; [exact Hp | apply Qle_refl].
Qed.

Lemma peaks_nth (ps : list Q) (i : nat) (p : Q) :
  nth_error ps i = Some p ->
  exists m, running_maximum ps i m /\ nth_error (peaks ps) i = Some (m, p).
Proof.
  intros Hp.
  destruct (nth_error (running None ps) i) as [m|] eqn:Hm.
  - exists m. split; [now apply running_is_maximum | now apply nth_error_combine].
  - apply nth_error_None in Hm. rewrite running_length in Hm.
    assert (nth_error ps i <> None) as Hsome by congruence.
    apply nth_error_Some in Hsome. lia.
Qed.

Lemma combine_map_both {A B C D : Type} (f : A -> C) (g : B -> D)
    (l : list A) (l' : list B) :
  combine (map f l) (map g l') = map (fun x => (f (fst x), g (snd x))) (combine l l').
Proof.
  revert l'. induction l as [|a t IH]; intros [|b t']; simpl; try reflexivity.
  now rewrite IH.
Qed.

Lemma combine_map_fst {A B C : Type} (f : A * B -> C) (l : list A) (l' : list B) :
  combine (map f (combine l l')) l = map (fun x => (f x, fst x)) (combine l l').
Proof.
  revert l'. induction l as [|a t IH]; intros [|b t']; simpl; try reflexivity.
  now rewrite IH.
Qed.

Lemma values_cummax (s : pd.Series) :
  pd.values (pd.cummax s) = pd.cummax_from None (pd.values s).
Proof.
  unfold pd.cummax. apply values_with_values.
  rewrite cummax_from_length. apply values_length.
Qed.

Lemma drawdown_values_length (vs : list value) :
  List.length (drawdown_values vs) = List.length vs.
Proof.
  unfold drawdown_values.
  rewrite length_map, length_combine, cummax_from_length. apply Nat.min_id.
Qed.

(** The series [drawdown] builds, on any stored series. *)
Lemma drawdown_div (s : pd.Series) :
  pd.div (pd.sub (pd.cummax s) s) (pd.cummax s)
  = pd.with_values s (drawdown_values (pd.values s)).
Proof.
  assert (Hc : List.length (pd.cummax_from None (pd.values s)) = pd.len s).
  { rewrite cummax_from_length. apply values_length. }
  assert (Hsub : pd.sub (pd.cummax s) s
                 = pd.with_values s
                     (map (fun p => vsub (fst p) (snd p))
                          (combine (pd.cummax_from None (pd.values s)) (pd.values s)))).
  { unfold pd.sub. rewrite values_cummax. unfold pd.cummax.
    now rewrite with_values_twice. }
  rewrite Hsub. unfold pd.div.
  rewrite values_with_values
    by (rewrite length_map, length_combine, Hc, values_length; apply Nat.min_id).
  rewrite with_values_twice
    by (rewrite length_map, length_combine, Hc, values_length; apply Nat.min_id).
  rewrite values_cummax, combine_map_fst, map_map. reflexivity.
Qed.

Lemma drawdown_values_Fin (ps : list Q) :
  Forall (fun p => (0 < p)%Q) ps ->
  drawdown_values (map Fin ps) = map drawdown_at (peaks ps).
Proof.
  intros Hpos. unfold drawdown_values.
  change None with (option_map Fin None).
  rewrite cummax_from_Fin, combine_map_both, map_map.
  fold (peaks ps). apply map_ext_in. intros [m p] Hin.
  pose proof (peaks_below ps Hpos) as Hall. rewrite Forall_forall in Hall.
  destruct (Hall _ Hin) as [H0 Hle]. cbn [fst snd] in *.
  unfold drawdown_value, drawdown_at, vsub, vdiv. cbn [fst snd].
  destruct (Qeq_bool m 0) eqn:E.
  - apply Qeq_bool_iff in E. rewrite E in Hle.
    exfalso. apply (Qlt_not_le _ _ H0 Hle).
  - f_equal. apply Qred_complete. now rewrite Qred_correct.
Qed.

Lemma len_prices (s : pd.Series) (ps : list Q) :
  pd.values s = map Fin ps -> List.length ps = pd.len s.
Proof. intros Hvalues. rewrite <- values_length, Hvalues. symmetry. apply length_map. Qed.

(* ------------------------------------------------------------------ *)
(** ** Methods: what they return, and what they leave *)

Lemma result_bind {A B : Type} (m : M A) (k : A -> M B) (self : PricesSeriesAccessor) :
  result (bind m k) self
  = (a <- result m self ;; result (k a) (after m self))%outcome.
Proof.
  unfold result, after, bind. destruct (m self) as [[a|] self']; reflexivity.
Qed.

Lemma after_bind {A B : Type} (m : M A) (k : A -> M B) (self : PricesSeriesAccessor) :
  after (bind m k) self
  = match result m self with
    | Returns a => after (k a) (after m self)
    | _ => after m self
    end.
Proof.
  unfold result, after, bind. destruct (m self) as [[a|] self']; reflexivity.
Qed.

Lemma reads_only_ret {A : Type} (a : A) : reads_only (ret a).
Proof. intros self. reflexivity. Qed.

Lemma reads_only_lift {A : Type} (o : outcome A) : reads_only (lift o).
Proof. intros self. reflexivity. Qed.

Lemma reads_only_self_series : reads_only self_series.
Proof. intros self. reflexivity. Qed.

Lemma reads_only_bind {A B : Type} (m : M A) (k : A -> M B) :
  reads_only m -> (forall a, reads_only (k a)) -> reads_only (bind m k).
Proof.
  intros Hm Hk self. rewrite after_bind, Hm.
  destruct (result m self); [apply Hk | reflexivity].
Qed.

Lemma reads_only_if {A : Type} (b : bool) (m1 m2 : M A) :
  reads_only m1 -> reads_only m2 -> reads_only (if b then m1 else m2).
Proof. now destruct b. Qed.

Create HintDb reads discriminated.
#[local] Hint Resolve reads_only_ret reads_only_lift reads_only_self_series : reads.
#[local] Hint Extern 2 (reads_only (bind _ _)) =>
  apply reads_only_bind; [| intro] : reads.
#[local] Hint Extern 2 (reads_only (if _ then _ else _)) =>
  apply reads_only_if : reads.

Section MethodsReadOnly.

Variable np_log : value -> value.
Variable pow : value -> value -> value.
Variable asfreq : pd.Series -> string -> option string -> outcome pd.Series.

Lemma set_frequency_reads freq method : reads_only (set_frequency asfreq freq method).
Proof. unfold set_frequency. auto with reads. Qed.

Lemma rebase_reads base : reads_only (rebase base).
Proof. unfold rebase. auto 10 with reads. Qed.

Lemma log_returns_reads period dropna : reads_only (log_returns np_log period dropna).
Proof. unfold log_returns. auto 10 with reads. Qed.

Lemma pct_returns_reads period dropna : reads_only (pct_returns period dropna).
Proof. unfold pct_returns. auto 10 with reads. Qed.

Lemma abs_return_reads : reads_only abs_return.
Proof. unfold abs_return. auto 10 with reads. Qed.

Lemma elapsed_days_reads : reads_only elapsed_days.
Proof. unfold elapsed_days. auto 10 with reads. Qed.

Lemma annualized_return_reads base : reads_only (annualized_return base).
Proof.
  unfold annualized_return.
  pose proof abs_return_reads. pose proof elapsed_days_reads. auto 10 with reads.
Qed.

Lemma cagr_reads base : reads_only (cagr pow base).
Proof.
  unfold cagr.
  pose proof abs_return_reads. pose proof elapsed_days_reads. auto 10 with reads.
Qed.

Lemma drawdown_reads negative : reads_only (drawdown negative).
Proof. unfold drawdown. auto 10 with reads. Qed.

Lemma max_drawdown_reads negative : reads_only (max_drawdown negative).
Proof.
  unfold max_drawdown. pose proof drawdown_reads. auto 10 with reads.
Qed.

End MethodsReadOnly.

(* ------------------------------------------------------------------ *)
(** ** Drawdown *)

Lemma drawdown_at_between (x : Q * Q) : below_peak x -> between 0 1 (drawdown_at x).
Proof.
  destruct x as [m p]. unfold below_peak, drawdown_at. cbn [fst snd]. intros [H0 Hle].
  assert (Hm : (0 < m)%Q) by (eapply Qlt_le_trans; eassumption).
  eexists. split; [reflexivity|]. rewrite Qred_correct. split.
  - apply Qle_shift_div_l; [exact Hm | lra].
  - apply Qle_shift_div_r; [exact Hm | lra].
Qed.

Lemma Qred_idempotent (q : Q) : Qred (Qred q) = Qred q.
Proof. apply Qred_complete, Qred_correct. Qed.

(** Every quotient is a number in lowest terms, or not a number. *)
Lemma vdiv_canonical (v w : value) : canonical (vdiv v w).
Proof.
  destruct v as [| | |a], w as [| | |b]; unfold vdiv, canonical;
    try exact I; try reflexivity.
  - now destruct (Qle_bool 0 b).
  - now destruct (Qle_bool 0 b).
  - destruct (Qeq_bool b 0); [now destruct (a ?= 0)%Q|]. apply Qred_idempotent.
Qed.

(** [v * -1] on such a value is its negation. *)
Lemma vmul_minus_one (v : value) :
  canonical v -> vmul v (of_int (-1)) = vneg v.
Proof.
  destruct v as [| | |q]; unfold canonical, vmul, vneg, of_int; try reflexivity.
  intros Hq. f_equal. rewrite <- Hq at 2. rewrite <- Qred_opp.
  apply Qred_complete. change (inject_Z (-1)) with (-1 # 1)%Q. ring.
Qed.

Lemma drawdown_values_negated (vs : list value) :
  map (fun v => vmul v (of_int (-1))) (drawdown_values vs)
  = map vneg (drawdown_values vs).
Proof.
  unfold drawdown_values. rewrite !map_map. apply map_ext. intros x.
  apply vmul_minus_one, vdiv_canonical.
Qed.

Lemma vneg_between (lo hi : Q) (v : value) :
  between lo hi v -> between (- hi) (- lo) (vneg v).
Proof.
  intros (q & -> & H1 & H2). exists (- q)%Q. split; [reflexivity|]. split; lra.
Qed.

Lemma vneg_missing_or_between (lo hi : Q) (v : value) :
  missing_or_between lo hi v -> missing_or_between (- hi) (- lo) (vneg v).
Proof.
  intros [-> | (q & -> & H1 & H2)]; [now left|].
  right. exists (- q)%Q. split; [reflexivity|]. split; lra.
Qed.

(** [max] picks one of its two values. *)
Lemma vmax_either (a b : value) : vmax a b = a \/ vmax a b = b.
Proof. unfold vmax. destruct (ge a b); auto. Qed.

Section Reduce.

Variable f : value -> value -> value.
Hypothesis f_either : forall a b, f a b = a \/ f a b = b.

Lemma reduce_from (a : value) (l : list value) :
  In (pd.reduce f (Some a) l) (a :: l).
Proof.
  revert a. induction l as [|v t IH]; intros a.
  - now left.
  - assert (Hstep : In (pd.reduce f (Some (f a v)) t) (a :: v :: t)).
    { destruct (IH (f a v)) as [H|H].
      - rewrite <- H. destruct (f_either a v) as [-> | ->]; [now left | right; now left].
      - right; now right. }
    destruct v; try exact Hstep.
    simpl. destruct (IH a) as [H|H]; [now left | right; now right].
Qed.

End Reduce.

Lemma ge_vneg (a b : value) : ge (vneg b) (vneg a) = ge a b.
Proof.
  destruct a as [| | |a], b as [| | |b]; simpl; try reflexivity.
  destruct (Qle_bool b a) eqn:E.
  - apply Qle_bool_iff. apply Qle_bool_iff in E. lra.
  - apply not_true_is_false. intros H. apply Qle_bool_iff in H.
    assert (b <= a)%Q as H' by lra. apply Qle_bool_iff in H'. congruence.
Qed.

Lemma vmin_vneg (a b : value) : vmin (vneg a) (vneg b) = vneg (vmax a b).
Proof. unfold vmin, vmax. rewrite ge_vneg. now destruct (ge a b). Qed.

Lemma reduce_vmin_vneg (acc : option value) (l : list value) :
  pd.reduce vmin (option_map vneg acc) (map vneg l)
  = vneg (pd.reduce vmax acc l).
Proof.
  revert acc. induction l as [|v t IH]; intros acc.
  - now destruct acc.
  - assert (Hstep : forall w, w = v -> isna v = false ->
              pd.reduce vmin
                (Some (match option_map vneg acc with
                       | None => vneg w
                       | Some a => vmin a (vneg w)
                       end)) (map vneg t)
              = vneg (pd.reduce vmax
                        (Some (match acc with None => w | Some a => vmax a w end)) t)).
    { intros w _ _. destruct acc as [a|]; cbn [option_map].
      - rewrite vmin_vneg. exact (IH (Some (vmax a w))).
      - exact (IH (Some w)). }
    destruct v; cbn [map vneg pd.reduce].
    + apply IH.
    + exact (Hstep PInf eq_refl eq_refl).
    + exact (Hstep NInf eq_refl eq_refl).
    + exact (Hstep (Fin q) eq_refl eq_refl).
Qed.

(** The order of the values that are not NaN. *)
Lemma ge_refl (a : value) : isna a = false -> ge a a = true.
Proof.
  destruct a as [| | |a]; simpl; try reflexivity; try discriminate.
  intros _. apply Qle_bool_iff, Qle_refl.
Qed.

Lemma ge_trans (a b c : value) : ge a b = true -> ge b c = true -> ge a c = true.
Proof.
  destruct a as [| | |a], b as [| | |b], c as [| | |c]; simpl;
    try reflexivity; try discriminate.
  rewrite !Qle_bool_iff. intros H1 H2. eapply Qle_trans; eassumption.
Qed.

Lemma vmax_cases (a b : value) :
  isna a = false -> isna b = false ->
  (vmax a b = a /\ ge a b = true) \/ (vmax a b = b /\ ge b a = true).
Proof.
  intros Ha Hb. unfold vmax. destruct (ge a b) eqn:E; [now left|]. right.
  split; [reflexivity|].
  destruct a as [| | |a], b as [| | |b]; simpl in *;
    try reflexivity; try discriminate.
  apply Qle_bool_iff, Qlt_le_weak, Qnot_le_lt. intros H.
  apply Qle_bool_iff in H. congruence.
Qed.

Lemma positive_notna (v : value) : positive v -> isna v = false.
Proof. intros [-> | (q & -> & _)]; reflexivity. Qed.

Lemma vmax_positive (a b : value) : positive a -> positive b -> positive (vmax a b).
Proof. intros Ha Hb. destruct (vmax_either a b) as [-> | ->]; assumption. Qed.

(** The step of [cummax] on a value that is not NaN. *)
Lemma cummax_from_cons (acc : option value) (v : value) (t : list value) :
  isna v = false ->
  pd.cummax_from acc (v :: t)
  = (match acc with None => v | Some a => vmax a v end)
      :: pd.cummax_from (Some (match acc with None => v | Some a => vmax a v end)) t.
Proof. destruct v; [discriminate| | |]; reflexivity. Qed.

(** [cummax] gives the greatest value so far. *)
Lemma cummax_from_greatest (a : value) (l : list value) (i : nat) (m : value) :
  isna a = false -> Forall (fun v => isna v = false) l ->
  nth_error (pd.cummax_from (Some a) l) i = Some m ->
  In m (a :: firstn (S i) l) /\
  Forall (fun x => ge m x = true) (a :: firstn (S i) l).
Proof.
  intros Ha Hl. revert a i Ha.
  induction Hl as [|v t Hv _ IH]; intros a i Ha.
  - destruct i; discriminate.
  - rewrite cummax_from_cons by exact Hv.
    assert (Hmax : isna (vmax a v) = false).
    { destruct (vmax_either a v) as [-> | ->]; assumption. }
    destruct i as [|i].
    + intros [= <-]. cbn [firstn].
      destruct (vmax_cases a v Ha Hv) as [[-> H]|[-> H]].
      * split; [now left|]. repeat constructor; [now apply ge_refl | exact H].
      * split; [right; now left|]. repeat constructor; [exact H | now apply ge_refl].
    + cbn [nth_error]. intros H. apply (IH _ _ Hmax) in H as [Hin Hall].
      apply Forall_cons_iff in Hall as [Hm Hall].
      change (firstn (S (S i)) (v :: t)) with (v :: firstn (S i) t).
      destruct (vmax_cases a v Ha Hv) as [[E Hge]|[E Hge]]; rewrite E in *.
      * split.
        { destruct Hin as [<-|Hin]; [now left | right; now right]. }
        constructor; [exact Hm|]. constructor; [|exact Hall].
        eapply ge_trans; eassumption.
      * split.
        { destruct Hin as [<-|Hin]; [right; now left | right; now right]. }
        constructor; [eapply ge_trans; eassumption|]. constructor; assumption.
Qed.

Lemma cummax_is_maximum (l : list value) (i : nat) (m : value) :
  Forall (fun v => isna v = false) l ->
  nth_error (pd.cummax_from None l) i = Some m -> running_maximum_value l i m.
Proof.
  unfold running_maximum_value. intros Hl. destruct Hl as [|v t Hv Ht].
  - destruct i; discriminate.
  - rewrite cummax_from_cons by exact Hv. destruct i as [|i].
    + intros [= <-]. split; [now left|].
      repeat constructor. now apply ge_refl.
    + cbn [nth_error]. intros H. now apply cummax_from_greatest in H.
Qed.

(** Below a running maximum that is a positive value, the drawdown is
    missing or lies between 0 and 1. *)
Lemma drawdown_value_bounds (m v : value) :
  positive m -> positive v -> ge m v = true ->
  missing_or_between 0 1 (drawdown_value (m, v)).
Proof.
  unfold drawdown_value. cbn [fst snd].
  intros [-> | (a & -> & Ha)] [-> | (b & -> & Hb)]; unfold vsub, vdiv, ge.
  - now left.
  - now left.
  - discriminate.
  - intros Hle%Qle_bool_iff. right.
    destruct (Qeq_bool a 0) eqn:E.
    { apply Qeq_bool_iff in E. rewrite E in Ha. exfalso. exact (Qlt_irrefl _ Ha). }
    eexists. split; [reflexivity|]. rewrite !Qred_correct. split.
    + apply Qle_shift_div_l; [exact Ha | lra].
    + apply Qle_shift_div_r; [exact Ha | lra].
Qed.

Lemma cummax_from_bounds (a : value) (l : list value) :
  positive a -> Forall positive l ->
  Forall (fun x => missing_or_between 0 1 (drawdown_value x))
         (combine (pd.cummax_from (Some a) l) l).
Proof.
  intros Ha Hl. revert a Ha. induction Hl as [|v t Hv _ IH]; intros a Ha.
  - constructor.
  - rewrite cummax_from_cons by now apply positive_notna.
    cbn [combine]. constructor.
    + apply drawdown_value_bounds; [now apply vmax_positive | exact Hv |].
      destruct (vmax_cases a v) as [[-> H]|[-> H]];
        try (now apply positive_notna); [exact H|].
      now apply ge_refl, positive_notna.
    + apply IH. now apply vmax_positive.
Qed.

Lemma drawdown_values_bounds (l : list value) :
  Forall positive l -> Forall (missing_or_between 0 1) (drawdown_values l).
Proof.
  intros Hl. unfold drawdown_values. apply Forall_map.
  destruct Hl as [|v t Hv Ht]; [constructor|].
  rewrite cummax_from_cons by now apply positive_notna.
  cbn [combine]. constructor.
  - apply drawdown_value_bounds; [exact Hv | exact Hv |].
    now apply ge_refl, positive_notna.
  - now apply cummax_from_bounds.
Qed.

(** The greatest of values that are missing or within bounds. *)
Lemma reduce_vmax_between (lo hi : Q) (a : value) (l : list value) :
  between lo hi a -> Forall (missing_or_between lo hi) l ->
  between lo hi (pd.reduce vmax (Some a) l).
Proof.
  intros Ha Hl. revert a Ha. induction Hl as [|v t Hv _ IH]; intros a Ha.
  - exact Ha.
  - destruct Hv as [-> | (q & -> & Hq)]; cbn [pd.reduce].
    + now apply IH.
    + apply IH. destruct (vmax_either a (Fin q)) as [-> | ->]; [exact Ha|].
      now exists q.
Qed.

Section StoredDrawdown.

Variable self : PricesSeriesAccessor.

Lemma drawdown_false_value :
  result (drawdown false) self
  = Returns (pd.with_values (_series self) (drawdown_values (pd.values (_series self)))).
Proof.
  unfold drawdown. rewrite result_bind. cbn [result self_series fst after snd obind ret].
  now rewrite drawdown_div.
Qed.

Lemma drawdown_true_value :
  result (drawdown true) self
  = Returns (pd.with_values (_series self)
               (map vneg (drawdown_values (pd.values (_series self))))).
Proof.
  unfold drawdown. rewrite result_bind. cbn [result self_series fst after snd obind ret].
  rewrite drawdown_div. unfold pd.mul, pd.multiply.
  rewrite values_with_values by (rewrite drawdown_values_length; apply values_length).
  rewrite with_values_twice by (rewrite drawdown_values_length; apply values_length).
  now rewrite drawdown_values_negated.
Qed.

Lemma max_drawdown_false_value :
  result (max_drawdown false) self
  = Returns (pd.reduce vmax None (drawdown_values (pd.values (_series self)))).
Proof.
  unfold max_drawdown. rewrite result_bind, drawdown_false_value.
  cbn [obind result ret fst]. unfold pd.max.
  now rewrite values_with_values
    by (rewrite drawdown_values_length; apply values_length).
Qed.

Lemma max_drawdown_true_value :
  result (max_drawdown true) self
  = Returns (vneg (pd.reduce vmax None (drawdown_values (pd.values (_series self))))).
Proof.
  unfold max_drawdown. rewrite result_bind, drawdown_true_value.
  cbn [obind result ret fst]. unfold pd.min.
  rewrite values_with_values
    by (rewrite length_map, drawdown_values_length; apply values_length).
  f_equal. exact (reduce_vmin_vneg None _).
Qed.

End StoredDrawdown.

Section ValidDrawdown.

Variable self : PricesSeriesAccessor.
Variable ps : list Q.
Hypothesis Hvalues : pd.values (_series self) = map Fin ps.
Hypothesis Hpos : Forall (fun p => (0 < p)%Q) ps.

Lemma drawdown_of_values : pd.values (drawdown_of self ps) = map drawdown_at (peaks ps).
Proof.
  apply values_with_values. rewrite length_map, peaks_length.
  now apply len_prices.
Qed.

Lemma drawdown_of_stored :
  pd.with_values (_series self) (drawdown_values (pd.values (_series self)))
  = drawdown_of self ps.
Proof. now rewrite Hvalues, drawdown_values_Fin. Qed.

Lemma drawdown_false_result : result (drawdown false) self = Returns (drawdown_of self ps).
Proof. now rewrite drawdown_false_value, drawdown_of_stored. Qed.

Lemma drawdown_true_result :
  result (drawdown true) self = Returns (pd.apply (drawdown_of self ps) vneg).
Proof.
  rewrite drawdown_true_value. unfold pd.apply. rewrite drawdown_of_values.
  rewrite Hvalues, drawdown_values_Fin by exact Hpos.
  unfold drawdown_of. rewrite with_values_twice; [reflexivity|].
  rewrite length_map, peaks_length. now apply len_prices.
Qed.

Lemma max_drawdown_false_result :
  result (max_drawdown false) self = Returns (pd.max (drawdown_of self ps)).
Proof.
  unfold max_drawdown. rewrite result_bind, drawdown_false_result. reflexivity.
Qed.

Lemma drawdown_of_between : Forall (between 0 1) (pd.values (drawdown_of self ps)).
Proof.
  rewrite drawdown_of_values. apply Forall_map.
  eapply Forall_impl; [|apply peaks_below, Hpos].
  apply drawdown_at_between.
Qed.

Lemma drawdown_of_at (i : nat) (p : Q) :
  nth_error ps i = Some p ->
  exists m, running_maximum ps i m /\
            nth_error (pd.values (drawdown_of self ps)) i = Some (Fin (Qred ((m - p) / m))).
Proof.
  intros (m & Hm & Hnth)%peaks_nth. exists m. split; [exact Hm|].
  rewrite drawdown_of_values, nth_error_map, Hnth. reflexivity.
Qed.

End ValidDrawdown.

(* ------------------------------------------------------------------ *)
(** ** Returns over the whole series *)

Lemma Qred_inject_Z (z : Z) : Qred (inject_Z z) = inject_Z z.
Proof.
  pose proof (Qred_correct (inject_Z z)) as E.
  pose proof (gcd_Qred (inject_Z z)) as G.
  destruct (Qred (inject_Z z)) as [n d]. unfold Qeq, inject_Z in *. simpl in *.
  assert (n = Z.pos d * z) as -> by lia.
  rewrite Z.gcd_comm, Z.gcd_mul_diag_l in G by lia.
  assert (d = 1%positive) as -> by lia. f_equal. lia.
Qed.

Lemma vdiv_Fin (a b : Q) :
  (0 < b)%Q -> vdiv (Fin a) (Fin b) = Fin (Qred (a / b)).
Proof.
  intros Hb. unfold vdiv. destruct (Qeq_bool b 0) eqn:E; [|reflexivity].
  apply Qeq_bool_iff in E. rewrite E in Hb. exfalso. exact (Qlt_irrefl _ Hb).
Qed.

(** A non-empty series has a first and a last row in label order. *)
Lemma earliest_exists (s : pd.Series) :
  pd.rows s <> [] -> exists k v, earliest s k v.
Proof.
  intros Hne.
  pose proof (sort_rows_perm (pd.rows s)) as Hperm.
  pose proof (sort_rows_sorted (pd.rows s)) as Hsorted.
  destruct (pd.sort_rows (pd.rows s)) as [|[k v] t] eqn:E.
  - apply Permutation_sym, Permutation_nil in Hperm. contradiction.
  - exists k, v. split.
    + apply (Permutation_in _ (Permutation_sym Hperm)). now left.
    + intros r Hr. apply (Permutation_in _ Hperm) in Hr.
      apply StronglySorted_inv in Hsorted as [_ Hall].
      destruct Hr as [<-|Hr]; [simpl; lia|].
      rewrite Forall_forall in Hall. exact (Hall _ Hr).
Qed.

Lemma latest_exists (s : pd.Series) :
  pd.rows s <> [] -> exists k v, latest s k v.
Proof.
  intros Hne.
  pose proof (sort_rows_perm (pd.rows s)) as Hperm.
  pose proof (sort_rows_sorted (pd.rows s)) as Hsorted.
  destruct (exists_last (l := pd.sort_rows (pd.rows s))) as (t & [k v] & E).
  { intros E. rewrite E in Hperm.
    apply Permutation_sym, Permutation_nil in Hperm. contradiction. }
  rewrite E in *. exists k, v. split.
  - apply (Permutation_in _ (Permutation_sym Hperm)), in_or_app. right. now left.
  - intros r Hr. apply (Permutation_in _ Hperm) in Hr.
    apply sorted_last_greatest in Hsorted. rewrite Forall_forall in Hsorted.
    exact (Hsorted _ Hr).
Qed.

Lemma valid_row_positive (s : pd.Series) (k : Z) (v : value) :
  _validate s = Returns tt -> In (k, v) (pd.rows s) -> positive v.
Proof.
  intros (_ & _ & Hpos)%validate_returns Hin.
  rewrite Forall_forall in Hpos. apply Hpos.
  change v with (snd (k, v)). now apply in_map.
Qed.

Section StoredEndsValues.

Variable s : pd.Series.
Variables kf kl : Z.
Variables vf vl : value.
Hypothesis Hvalid : _validate s = Returns tt.
Hypothesis Hfirst : earliest s kf vf.
Hypothesis Hlast : latest s kl vl.

Lemma iat_first : pd.iat (stored s) 0 = Returns vf.
Proof.
  destruct (stored_first s Hvalid _ _ Hfirst) as (t & E).
  unfold pd.iat, pd.values. rewrite E. apply at_position_first.
Qed.

Lemma iat_last : pd.iat (stored s) (-1) = Returns vl.
Proof.
  destruct (stored_last s Hvalid _ _ Hlast) as (t & E).
  unfold pd.iat, pd.values. rewrite E, map_app. apply at_position_last.
Qed.

Lemma index_first : pd.index_at (pd.index (stored s)) 0 = Returns kf.
Proof.
  destruct (stored_first s Hvalid _ _ Hfirst) as (t & E).
  unfold pd.index_at, pd.index. cbn [pd.labels]. rewrite E. apply at_position_first.
Qed.

Lemma index_last : pd.index_at (pd.index (stored s)) (-1) = Returns kl.
Proof.
  destruct (stored_last s Hvalid _ _ Hlast) as (t & E).
  unfold pd.index_at, pd.index. cbn [pd.labels]. rewrite E, map_app. apply at_position_last.
Qed.

Lemma abs_return_value :
  result abs_return {| _series := stored s |}
  = Returns (vsub (vdiv vl vf) (of_int 1)).
Proof.
  unfold abs_return.
  repeat (rewrite result_bind; cbn [result self_series lift ret fst after snd obind _series]).
  rewrite iat_last. cbn [obind].
  repeat (rewrite result_bind; cbn [result self_series lift ret fst after snd obind _series]).
  rewrite iat_first. reflexivity.
Qed.

Lemma elapsed_days_result :
  result elapsed_days {| _series := stored s |} = Returns (whole_days kf kl).
Proof.
  unfold elapsed_days.
  repeat (rewrite result_bind; cbn [result self_series lift ret fst after snd obind _series]).
  rewrite index_last. cbn [obind].
  repeat (rewrite result_bind; cbn [result self_series lift ret fst after snd obind _series]).
  rewrite index_first. cbn [obind].
  unfold pd.days_between, pd.index. cbn [pd.dtype pd.index_dtype_of stored pd.sort_index].
  apply validate_returns in Hvalid as (Hdt%datetime_indexed_dtype & _).
  rewrite Hdt. reflexivity.
Qed.

Lemma annualized_return_value (base : Z) :
  result (annualized_return base) {| _series := stored s |}
  = Returns (vdiv (vmul (vsub (vdiv vl vf) (of_int 1)) (of_int base))
                  (of_int (whole_days kf kl))).
Proof.
  unfold annualized_return.
  rewrite result_bind, abs_return_value. cbn [obind].
  rewrite abs_return_reads, result_bind, elapsed_days_result. reflexivity.
Qed.

Section PowerValues.

Variable pow : value -> value -> value.


Lemma cagr_zero_days (base : Z) :
  (whole_days kf kl) = 0 ->
  result (cagr pow base) {| _series := stored s |} = Raises ZeroDivisionError.
Proof.
  intros Hdays. unfold cagr.
  rewrite result_bind, abs_return_value. cbn [obind].
  rewrite abs_return_reads, result_bind, elapsed_days_result. cbn [obind].
  rewrite elapsed_days_reads, result_bind. cbn [result lift fst].
  unfold int_truediv. rewrite Hdays. reflexivity.
Qed.

End PowerValues.

End StoredEndsValues.


Section ValidEnds.

Variable s : pd.Series.
Variables kf kl : Z.
Variables pf pl : Q.
Hypothesis Hvalid : _validate s = Returns tt.
Hypothesis Hfirst : earliest s kf (Fin pf).
Hypothesis Hlast : latest s kl (Fin pl).

Lemma first_price_positive : (0 < pf)%Q.
Proof.
  destruct Hfirst as [Hin _].
  destruct (valid_row_positive _ _ _ Hvalid Hin) as [H | (q & [= <-] & Hq)];
    [discriminate | exact Hq].
Qed.

Lemma total_return_value :
  vsub (vdiv (Fin pl) (Fin pf)) (of_int 1) = Fin (Qred (total_return pf pl)).
Proof.
  rewrite vdiv_Fin by apply first_price_positive.
  unfold vsub, of_int, total_return. f_equal.
  apply Qred_complete. now rewrite Qred_correct.
Qed.

Lemma abs_return_result :
  result abs_return {| _series := stored s |}
  = Returns (Fin (Qred (total_return pf pl))).
Proof.
  rewrite (abs_return_value s kf kl _ _ Hvalid Hfirst Hlast).
  now rewrite total_return_value.
Qed.


(** Over no whole day the division is by zero: the result is NaN or an
    infinity, by the sign of the return times the base. *)
Lemma annualized_return_zero_days (base : Z) :
  (whole_days kf kl) = 0 ->
  result (annualized_return base) {| _series := stored s |}
  = Returns (match (total_return pf pl * inject_Z base ?= 0)%Q with
             | Eq => NaN
             | Gt => PInf
             | Lt => NInf
             end).
Proof.
  intros Hdays.
  rewrite (annualized_return_value s kf kl _ _ Hvalid Hfirst Hlast).
  rewrite total_return_value, Hdays. unfold vmul, of_int, vdiv.
  change (Qeq_bool (inject_Z 0) 0) with true. cbn iota. f_equal.
  assert (E : (Qred (Qred (total_return pf pl) * inject_Z base)
               == total_return pf pl * inject_Z base)%Q)
    by now rewrite !Qred_correct.
  now rewrite E.
Qed.

End ValidEnds.

(* ------------------------------------------------------------------ *)
(** ** Rebasing *)

Lemma rebased_value_Fin (pf : Q) (base : Z) (p : Q) :
  (0 < pf)%Q -> rebased_value (Fin pf) base (Fin p) = rebased pf base p.
Proof.
  intros Hpf. unfold rebased_value. rewrite vdiv_Fin by exact Hpf.
  unfold vmul, of_int, rebased. f_equal. apply Qred_complete. now rewrite Qred_correct.
Qed.

Lemma rebased_value_first (pf : Q) (base : Z) :
  (0 < pf)%Q -> rebased_value (Fin pf) base (Fin pf) = of_int base.
Proof.
  intros Hpf. rewrite rebased_value_Fin by exact Hpf.
  unfold rebased, of_int. f_equal.
  transitivity (Qred (inject_Z base)); [|apply Qred_inject_Z].
  apply Qred_complete.
  unfold Qdiv. rewrite Qmult_inv_r by lra. apply Qmult_1_l.
Qed.

Section StoredRebase.

Variable s : pd.Series.
Variable kf : Z.
Variable vf : value.
Hypothesis Hvalid : _validate s = Returns tt.
Hypothesis Hfirst : earliest s kf vf.

Lemma rebase_value (base : Z) :
  result (rebase base) {| _series := stored s |}
  = Returns (pd.with_values (stored s)
               (map (rebased_value vf base) (pd.values (stored s)))).
Proof.
  unfold rebase.
  repeat (rewrite result_bind; cbn [result self_series lift ret fst after snd obind _series]).
  change (pd.iloc (stored s) 0) with (pd.iat (stored s) 0).
  rewrite (iat_first s kf vf Hvalid Hfirst). cbn [obind].
  repeat (rewrite result_bind; cbn [result self_series lift ret fst after snd obind _series]).
  unfold pd.multiply, pd.divide.
  rewrite values_with_values by (rewrite length_map; apply values_length).
  rewrite with_values_twice by (rewrite length_map; apply values_length).
  now rewrite map_map.
Qed.

Lemma rebase_value_values (base : Z) :
  pd.values (pd.with_values (stored s)
               (map (rebased_value vf base) (pd.values (stored s))))
  = map (rebased_value vf base) (pd.values (stored s)).
Proof. apply values_with_values. rewrite length_map. apply values_length. Qed.

Lemma rebase_value_index (base : Z) :
  pd.index (pd.with_values (stored s)
              (map (rebased_value vf base) (pd.values (stored s))))
  = pd.index (stored s).
Proof. apply index_with_values. rewrite length_map. apply values_length. Qed.

End StoredRebase.

Section ValidRebase.

Variable s : pd.Series.
Variable kf : Z.
Variable pf : Q.
Variable ps : list Q.
Hypothesis Hvalid : _validate s = Returns tt.
Hypothesis Hfirst : earliest s kf (Fin pf).
Hypothesis Hvalues : pd.values (stored s) = map Fin ps.

Lemma rebase_of_values (base : Z) : pd.values (rebase_of s pf ps base) = map (rebased pf base) ps.
Proof.
  apply values_with_values. rewrite length_map. now apply len_prices.
Qed.

Lemma rebase_result (base : Z) :
  result (rebase base) {| _series := stored s |} = Returns (rebase_of s pf ps base).
Proof.
  pose proof (first_price_positive s kf pf Hvalid Hfirst) as Hpf.
  rewrite (rebase_value s kf _ Hvalid Hfirst). unfold rebase_of.
  rewrite Hvalues, map_map. do 2 f_equal. apply map_ext. intros p.
  now apply rebased_value_Fin.
Qed.

End ValidRebase.

(** When the first price is a number, the first value of the rebased
    series is the base. *)
Lemma rebase_first (s : pd.Series) (kf : Z) (pf : Q) (base : Z) :
  _validate s = Returns tt -> earliest s kf (Fin pf) ->
  pd.iat (pd.with_values (stored s)
            (map (rebased_value (Fin pf) base) (pd.values (stored s)))) 0
  = Returns (of_int base).
Proof.
  intros Hvalid Hfirst.
  pose proof (first_price_positive s kf pf Hvalid Hfirst) as Hpf.
  unfold pd.iat. rewrite rebase_value_values.
  destruct (stored_first s Hvalid _ _ Hfirst) as (t & E).
  unfold pd.values. rewrite E. cbn [map snd].
  rewrite at_position_first. f_equal. now apply rebased_value_first.
Qed.

(* ------------------------------------------------------------------ *)
(** ** Percentage returns *)

Lemma ffill_from_notna (last : value) (l : list value) :
  Forall (fun v => isna v = false) l -> pd.ffill_from last l = l.
Proof.
  intros Hl. revert last. induction Hl as [|v t Hv _ IH]; intros last; [reflexivity|].
  destruct v; [discriminate| | |]; simpl; now rewrite IH.
Qed.

Lemma ffill_notna (s : pd.Series) :
  Forall (fun v => isna v = false) (pd.values s) -> pd.ffill s = s.
Proof.
  intros Hl. unfold pd.ffill. rewrite ffill_from_notna by exact Hl.
  apply with_values_self.
Qed.

Lemma Fin_notna (ps : list Q) : Forall (fun v => isna v = false) (map Fin ps).
Proof. apply Forall_map, Forall_forall. reflexivity. Qed.

Lemma shift_values_length (periods : Z) (l : list value) :
  List.length (pd.shift_values periods l) = List.length l.
Proof.
  unfold pd.shift_values. destruct (0 <=? periods).
  - rewrite length_firstn, length_app, repeat_length. lia.
  - rewrite length_app, length_skipn, repeat_length. lia.
Qed.

Lemma shift_values_nth (periods : Z) (l : list value) (i : nat) :
  (i < List.length l)%nat ->
  nth_error (pd.shift_values periods l) i = Some (or_NaN (lagged l periods i)).
Proof.
  intros Hi. unfold pd.shift_values, lagged.
  destruct (Z.leb_spec 0 periods) as [Hp|Hp].
  - rewrite nth_error_firstn.
    destruct (Nat.ltb_spec i (List.length l)) as [_|]; [|lia].
    destruct (Z.ltb_spec (Z.of_nat i - periods) 0) as [Hj|Hj]; cbn [orb].
    + rewrite nth_error_app1 by (rewrite repeat_length; lia).
      rewrite nth_error_repeat by lia. reflexivity.
    + destruct (Z.leb_spec (Z.of_nat (List.length l)) (Z.of_nat i - periods)); [lia|].
      rewrite nth_error_app2 by (rewrite repeat_length; lia).
      rewrite repeat_length.
      replace (i - Z.to_nat periods)%nat with (Z.to_nat (Z.of_nat i - periods)) by lia.
      destruct (nth_error l (Z.to_nat (Z.of_nat i - periods))) as [v|] eqn:E; [reflexivity|].
      apply nth_error_None in E. lia.
  - destruct (Z.ltb_spec (Z.of_nat i - periods) 0) as [Hj|Hj]; [lia|]. cbn [orb].
    destruct (Z.leb_spec (Z.of_nat (List.length l)) (Z.of_nat i - periods)) as [Hn|Hn].
    + rewrite nth_error_app2 by (rewrite length_skipn; lia).
      rewrite nth_error_repeat; [reflexivity|]. rewrite length_skipn. lia.
    + rewrite nth_error_app1 by (rewrite length_skipn; lia).
      rewrite nth_error_skipn.
      replace (Z.to_nat (- periods) + i)%nat with (Z.to_nat (Z.of_nat i - periods)) by lia.
      destruct (nth_error l (Z.to_nat (Z.of_nat i - periods))) as [v|] eqn:E; [reflexivity|].
      apply nth_error_None in E. lia.
Qed.

Lemma lagged_map_Fin (ps : list Q) (periods : Z) (i : nat) :
  lagged (map Fin ps) periods i = option_map Fin (lagged ps periods i).
Proof.
  unfold lagged. rewrite length_map. destruct (_ || _); [reflexivity|].
  apply nth_error_map.
Qed.

Lemma pct_values_length (vs : list value) (periods : Z) :
  List.length (pct_values vs periods) = List.length vs.
Proof.
  unfold pct_values.
  rewrite length_map, length_combine, shift_values_length. apply Nat.min_id.
Qed.

(** The series [pct_change] builds, on a series without NaN. *)
Lemma pct_change_value (s : pd.Series) (periods : Z) :
  Forall (fun v => isna v = false) (pd.values s) ->
  pd.pct_change s periods = pd.with_values s (pct_values (pd.values s) periods).
Proof.
  intros Hl. unfold pd.pct_change, pd.div, pd.shift, pd.sub_scalar.
  rewrite ffill_notna by exact Hl.
  rewrite (values_with_values s (pd.shift_values periods (pd.values s)))
    by (rewrite shift_values_length; apply values_length).
  assert (Hq : List.length (map (fun p => vdiv (fst p) (snd p))
                 (combine (pd.values s) (pd.shift_values periods (pd.values s))))
               = pd.len s).
  { rewrite length_map, length_combine, shift_values_length, Nat.min_id.
    apply values_length. }
  rewrite values_with_values, with_values_twice by exact Hq.
  unfold pct_values. now rewrite map_map.
Qed.

(** The value at each position. *)
Lemma pct_values_at (vs : list value) (periods : Z) (i : nat) (v : value) :
  nth_error vs i = Some v ->
  nth_error (pct_values vs periods) i = Some (pct_value v (lagged vs periods i)).
Proof.
  intros Hv. unfold pct_values.
  assert (Hi : (i < List.length vs)%nat) by (apply nth_error_Some; congruence).
  rewrite nth_error_map.
  rewrite (nth_error_combine _ _ i v (or_NaN (lagged vs periods i)) Hv)
    by now apply shift_values_nth.
  cbn [option_map fst snd]. f_equal.
  destruct (lagged vs periods i) as [w|]; cbn [or_NaN pct_value]; [reflexivity|].
  now destruct v.
Qed.

Lemma pct_value_Fin (p : Q) (earlier : option Q) :
  (forall q, earlier = Some q -> (0 < q)%Q) ->
  pct_value (Fin p) (option_map Fin earlier) = pct_of p earlier.
Proof.
  intros Hq. destruct earlier as [q|]; cbn [option_map pct_value pct_of]; [|reflexivity].
  rewrite vdiv_Fin by now apply Hq.
  unfold vsub, of_int. f_equal. apply Qred_complete. now rewrite Qred_correct.
Qed.

Lemma lagged_In {A : Type} (l : list A) (periods : Z) (i : nat) (a : A) :
  lagged l periods i = Some a -> In a l.
Proof.
  unfold lagged. destruct (_ || _); [discriminate|]. apply nth_error_In.
Qed.

Section StoredPct.

Variable self : PricesSeriesAccessor.
Hypothesis Hnotna : Forall (fun v => isna v = false) (pd.values (_series self)).

Lemma pct_returns_value (periods : Z) (dropna : bool) :
  result (pct_returns periods dropna) self
  = Returns (if dropna
             then pd.dropna (pd.with_values (_series self)
                               (pct_values (pd.values (_series self)) periods))
             else pd.with_values (_series self)
                    (pct_values (pd.values (_series self)) periods)).
Proof.
  unfold pct_returns. rewrite result_bind.
  cbn [result self_series fst after snd obind].
  rewrite pct_change_value by exact Hnotna. now destruct dropna.
Qed.

Lemma pct_values_stored_values (periods : Z) :
  pd.values (pd.with_values (_series self)
               (pct_values (pd.values (_series self)) periods))
  = pct_values (pd.values (_series self)) periods.
Proof. apply values_with_values. rewrite pct_values_length. apply values_length. Qed.

Lemma pct_values_stored_index (periods : Z) :
  pd.index (pd.with_values (_series self)
              (pct_values (pd.values (_series self)) periods))
  = pd.index (_series self).
Proof. apply index_with_values. rewrite pct_values_length. apply values_length. Qed.

End StoredPct.

Section ValidPct.

Variable self : PricesSeriesAccessor.
Variable ps : list Q.
Hypothesis Hvalues : pd.values (_series self) = map Fin ps.
Hypothesis Hpos : Forall (fun p => (0 < p)%Q) ps.

Lemma pct_change_values_length (periods : Z) :
  List.length (pct_change_values ps periods) = pd.len (_series self).
Proof.
  unfold pct_change_values. rewrite pct_values_length, length_map.
  now apply len_prices.
Qed.

Lemma pct_change_of_values (periods : Z) :
  pd.values (pct_change_of self ps periods) = pct_change_values ps periods.
Proof. apply values_with_values, pct_change_values_length. Qed.

Lemma pct_change_of_index (periods : Z) :
  pd.index (pct_change_of self ps periods) = pd.index (_series self).
Proof. apply index_with_values, pct_change_values_length. Qed.

Lemma pct_change_result (periods : Z) :
  pd.pct_change (_series self) periods = pct_change_of self ps periods.
Proof.
  rewrite pct_change_value by (rewrite Hvalues; apply Fin_notna).
  unfold pct_change_of, pct_change_values. now rewrite Hvalues.
Qed.

(** The value at each position. *)
Lemma pct_change_at (periods : Z) (i : nat) (p : Q) :
  nth_error ps i = Some p ->
  nth_error (pct_change_values ps periods) i = Some (pct_of p (lagged ps periods i)).
Proof.
  intros Hp. unfold pct_change_values.
  rewrite (pct_values_at _ periods i (Fin p)) by now rewrite nth_error_map, Hp.
  rewrite lagged_map_Fin. f_equal. apply pct_value_Fin.
  intros q Hq%lagged_In. rewrite Forall_forall in Hpos. now apply Hpos.
Qed.

Lemma pct_returns_result (periods : Z) (dropna : bool) :
  result (pct_returns periods dropna) self
  = Returns (if dropna then pd.dropna (pct_change_of self ps periods) else pct_change_of self ps periods).
Proof.
  unfold pct_returns. rewrite result_bind.
  cbn [result self_series fst after snd obind].
  rewrite pct_change_result. now destruct dropna.
Qed.

End ValidPct.

Lemma dropna_notna (s : pd.Series) :
  Forall (fun v => isna v = false) (pd.values (pd.dropna s)).
Proof.
  unfold pd.values, pd.dropna. cbn [pd.rows]. apply Forall_map, Forall_forall.
  intros r [_ Hr]%filter_In. unfold notna in Hr. now apply negb_true_iff.
Qed.

(** When exactly the first [k] rows hold NaN, [dropna] removes those. *)
Lemma filter_notna_skipn (l : list (Z * value)) (k : nat) :
  (forall i r, nth_error l i = Some r -> isna (snd r) = (i <? k)%nat) ->
  filter (fun r => notna (snd r)) l = skipn k l.
Proof.
  revert k. induction l as [|r t IH]; intros k H.
  - now rewrite skipn_nil.
  - pose proof (H 0%nat r eq_refl) as H0. cbn [filter]. unfold notna at 1. rewrite H0.
    destruct k as [|k].
    + cbn [Nat.ltb Nat.leb negb skipn]. f_equal.
      rewrite (IH 0%nat); [reflexivity|].
      intros i r' Hi. now rewrite (H (S i) r' Hi).
    + cbn [Nat.ltb Nat.leb negb skipn]. apply IH.
      intros i r' Hi. now rewrite (H (S i) r' Hi).
Qed.

Lemma lagged_forward {A : Type} (l : list A) (periods : Z) (i : nat) :
  0 <= periods -> (i < List.length l)%nat ->
  (lagged l periods i = None <-> (i < Z.to_nat periods)%nat).
Proof.
  intros Hp Hi. unfold lagged.
  destruct (Z.ltb_spec (Z.of_nat i - periods) 0) as [Hj|Hj]; cbn [orb].
  - split; [lia | reflexivity].
  - destruct (Z.leb_spec (Z.of_nat (List.length l)) (Z.of_nat i - periods)); [lia|].
    rewrite nth_error_None. lia.
Qed.

Section ValidPctDropna.

Variable self : PricesSeriesAccessor.
Variable ps : list Q.
Hypothesis Hvalues : pd.values (_series self) = map Fin ps.
Hypothesis Hpos : Forall (fun p => (0 < p)%Q) ps.

Lemma pct_change_head (periods : Z) :
  0 <= periods ->
  pd.rows (pd.dropna (pct_change_of self ps periods))
  = skipn (Z.to_nat periods) (pd.rows (pct_change_of self ps periods)).
Proof.
  intros Hp. unfold pd.dropna. cbn [pd.rows].
  apply filter_notna_skipn. intros i r Hr.
  assert (Hv : nth_error (pd.values (pct_change_of self ps periods)) i = Some (snd r)).
  { unfold pd.values. now rewrite nth_error_map, Hr. }
  rewrite (pct_change_of_values self ps Hvalues) in Hv.
  assert (Hi : (i < List.length ps)%nat).
  { rewrite (len_prices _ ps Hvalues), <- (pct_change_values_length self ps Hvalues periods).
    apply nth_error_Some. congruence. }
  destruct (nth_error ps i) as [p|] eqn:E; [|apply nth_error_None in E; lia].
  rewrite (pct_change_at ps Hpos periods i p E) in Hv. injection Hv as <-.
  pose proof (lagged_forward ps periods i Hp Hi) as Hl.
  destruct (lagged ps periods i) as [q|]; cbn [pct_of isna].
  - symmetry. apply Nat.ltb_ge.
    destruct (Nat.lt_ge_cases i (Z.to_nat periods)) as [Hlt|]; [|assumption].
    apply Hl in Hlt. discriminate.
  - symmetry. apply Nat.ltb_lt. now apply Hl.
Qed.

End ValidPctDropna.

(* ------------------------------------------------------------------ *)
(** ** Construction *)

Lemma validate_not_datetime (s : pd.Series) :
  ~ datetime_indexed s -> _validate s = Raises (TypeError msg_index).
Proof.
  unfold _validate, datetime_indexed. intros H.
  destruct (String.eqb_spec (pd.inferred_type (pd.index s)) "datetime64"); [contradiction|].
  reflexivity.
Qed.

Lemma validate_duplicates (s : pd.Series) :
  datetime_indexed s -> pd.is_unique (pd.index s) = false ->
  _validate s = Raises (ValueError msg_duplicates).
Proof.
  unfold _validate, datetime_indexed. intros H ->.
  destruct (String.eqb_spec (pd.inferred_type (pd.index s)) "datetime64"); [|contradiction].
  reflexivity.
Qed.

Lemma validate_prices (s : pd.Series) :
  datetime_indexed s -> pd.is_unique (pd.index s) = true ->
  ~ Forall positive (pd.values s) ->
  _validate s = Raises (ValueError msg_prices).
Proof.
  unfold _validate, datetime_indexed. intros H -> Hneg.
  destruct (String.eqb_spec (pd.inferred_type (pd.index s)) "datetime64"); [|contradiction].
  cbn [negb]. destruct (pd.all (pd.series_gt s (of_int 0))) eqn:E; [|reflexivity].
  apply all_series_gt in E. contradiction.
Qed.

Lemma non_positive_not_positive (v : value) : non_positive v -> ~ positive v.
Proof.
  intros [-> | (q & -> & Hq)] [H | (q' & [= <-] & Hq')]; try discriminate.
  exact (Qlt_not_le _ _ Hq' Hq).
Qed.

Lemma NaN_not_positive : ~ positive NaN.
Proof. intros [H | (q & H & _)]; discriminate. Qed.

(** A value that fails the price check sends a datetime-indexed series to
    one of the two value errors. *)
Lemma validate_bad_value (s : pd.Series) (v : value) :
  datetime_indexed s -> In v (pd.values s) -> ~ positive v ->
  exists msg, _validate s = Raises (ValueError msg).
Proof.
  intros Hdt Hin Hv.
  destruct (pd.is_unique (pd.index s)) eqn:U.
  - exists msg_prices. apply validate_prices; try assumption.
    intros Hall. rewrite Forall_forall in Hall. exact (Hv (Hall _ Hin)).
  - exists msg_duplicates. now apply validate_duplicates.
Qed.

(** C1, as stated, fails: the claim promises a value-validation error
    whenever labels repeat and whenever a price is not positive, yet a
    series without a date/time index that has both defects is refused with
    the type-validation error. *)
Lemma construction_checks_counterexample :
  pd.is_unique (pd.index integer_indexed_sample) = false /\
  (exists v, In v (pd.values integer_indexed_sample) /\ non_positive v) /\
  __init__ integer_indexed_sample = Raises (TypeError msg_index) /\
  forall msg, __init__ integer_indexed_sample <> Raises (ValueError msg).
Proof.
  split; [reflexivity|]. split.
  - exists (of_int (-7)). split; [right; now left|].
    right. exists (inject_Z (-7)). split; [reflexivity | discriminate].
  - split; [reflexivity | discriminate].
Qed.

(** C1 (amended): construction runs its three checks in order.  A series
    whose index is not date/time-typed raises the type-validation error; a
    series with a date/time index raises a value-validation error when its
    labels repeat and when some price is zero or negative; a series with a
    date/time index, unique labels and positive prices only is accepted. *)
Theorem construction_checks (s : pd.Series) :
  (~ datetime_indexed s -> __init__ s = Raises (TypeError msg_index)) /\
  (datetime_indexed s -> pd.is_unique (pd.index s) = false ->
   __init__ s = Raises (ValueError msg_duplicates)) /\
  (datetime_indexed s -> (exists v, In v (pd.values s) /\ non_positive v) ->
   exists msg, __init__ s = Raises (ValueError msg)) /\
  (datetime_indexed s -> pd.is_unique (pd.index s) = true ->
   Forall positive (pd.values s) ->
   __init__ s = Returns {| _series := pd.sort_index s |}).
Proof.
  repeat split.
  - intros H. now apply init_raises, validate_not_datetime.
  - intros H U. now apply init_raises, validate_duplicates.
  - intros H (v & Hin & Hv).
    destruct (validate_bad_value s v H Hin (non_positive_not_positive v Hv)) as (msg & E).
    exists msg. now apply init_raises.
  - intros H U Hpos. apply init_returns. split; [|reflexivity].
    apply validate_returns. split; [exact H|]. split; [|exact Hpos].
    now apply unique_NoDup.
Qed.

Lemma construction_checks_witness :
  __init__ integer_indexed_sample = Raises (TypeError msg_index) /\
  __init__ repeated_sample = Raises (ValueError msg_duplicates) /\
  (exists msg, __init__ zero_price_sample = Raises (ValueError msg)) /\
  __init__ accepted_sample = Returns {| _series := pd.sort_index accepted_sample |}.
Proof.
  split; [|split; [|split]].
  - apply (proj1 (construction_checks integer_indexed_sample)). discriminate.
  - apply (proj1 (proj2 (construction_checks repeated_sample))); reflexivity.
  - apply (proj1 (proj2 (proj2 (construction_checks zero_price_sample)))).
    + reflexivity.
    + exists (of_int 0). split; [right; now left|].
      right. exists (inject_Z 0). split; [reflexivity | discriminate].
  - apply (proj2 (proj2 (proj2 (construction_checks accepted_sample)))).
    + reflexivity.
    + reflexivity.
    + repeat (apply Forall_cons;
        [right; eexists; split; [reflexivity | reflexivity]|]).
      apply Forall_nil.
Defined.

(* ------------------------------------------------------------------ *)
(** ** Missing prices *)

(** C9, as stated, fails: a series that holds a NaN and whose index is not
    date/time-typed is refused with the type-validation error, not with a
    value-validation error. *)
Lemma missing_price_counterexample :
  In NaN (pd.values integer_indexed_missing) /\
  __init__ integer_indexed_missing = Raises (TypeError msg_index) /\
  forall msg, __init__ integer_indexed_missing <> Raises (ValueError msg).
Proof.
  split; [right; now left|]. split; [reflexivity | discriminate].
Qed.

(** C9 (amended): a series that holds a NaN is never accepted; when its
    index is date/time-typed, construction raises a value-validation error,
    and when its labels are also unique this is the very error a zero or
    negative price raises. *)
Theorem missing_price_rejected (s : pd.Series) :
  In NaN (pd.values s) ->
  (exists e, __init__ s = Raises e) /\
  (datetime_indexed s -> exists msg, __init__ s = Raises (ValueError msg)) /\
  (datetime_indexed s -> pd.is_unique (pd.index s) = true ->
   __init__ s = Raises (ValueError msg_prices) /\
   forall t v, datetime_indexed t -> pd.is_unique (pd.index t) = true ->
               In v (pd.values t) -> non_positive v ->
               __init__ t = __init__ s).
Proof.
  intros Hin.
  assert (Hdt : datetime_indexed s -> exists msg, __init__ s = Raises (ValueError msg)).
  { intros H.
    destruct (validate_bad_value s NaN H Hin NaN_not_positive) as (msg & E).
    exists msg. now apply init_raises. }
  assert (Hp : forall t v, datetime_indexed t -> pd.is_unique (pd.index t) = true ->
                           In v (pd.values t) -> ~ positive v ->
                           __init__ t = Raises (ValueError msg_prices)).
  { intros t v H U Hv Hnp. apply init_raises, validate_prices; try assumption.
    intros Hall. rewrite Forall_forall in Hall. exact (Hnp (Hall _ Hv)). }
  split; [|split].
  - destruct (String.string_dec (pd.inferred_type (pd.index s)) "datetime64") as [H|H].
    + destruct (Hdt H) as (msg & E). eauto.
    + eexists. apply init_raises, validate_not_datetime, H.
  - exact Hdt.
  - intros H U. rewrite (Hp s NaN H U Hin NaN_not_positive). split; [reflexivity|].
    intros t v Ht Ut Hv Hnp.
    exact (Hp t v Ht Ut Hv (non_positive_not_positive v Hnp)).
Qed.

Lemma missing_price_rejected_witness :
  In NaN (pd.values missing_sample) /\
  (exists msg, __init__ missing_sample = Raises (ValueError msg)) /\
  __init__ missing_sample = Raises (ValueError msg_prices) /\
  __init__ zero_price_sample = __init__ missing_sample.
Proof.
  assert (Hin : In NaN (pd.values missing_sample)) by (right; now left).
  destruct (missing_price_rejected missing_sample Hin) as (_ & H2 & H3).
  destruct (H3 eq_refl eq_refl) as [H4 H5].
  split; [exact Hin|]. split; [exact (H2 eq_refl)|]. split; [exact H4|].
  apply (H5 zero_price_sample (of_int 0)).
  - reflexivity.
  - reflexivity.
  - right. now left.
  - right. exists (inject_Z 0). split; [reflexivity | discriminate].
Defined.

(* ------------------------------------------------------------------ *)
(** ** The stored series *)

Section StoredSeries.

Variable np_log : value -> value.
Variable pow : value -> value -> value.
Variable asfreq : pd.Series -> string -> option string -> outcome pd.Series.

(** C8: after a successful construction the stored series holds the rows
    of the input in strictly ascending order of their labels, whatever
    their order in the input, and every method leaves the accessor, and
    so the stored series, as it found it. *)
Theorem stored_series_sorted_and_kept (s : pd.Series) (self : PricesSeriesAccessor) :
  __init__ s = Returns self ->
  StronglySorted label_lt (pd.rows (_series self)) /\
  Permutation (pd.rows s) (pd.rows (_series self)) /\
  pd.index_dtype_of (_series self) = pd.index_dtype_of s /\
  (forall freq method, after (set_frequency asfreq freq method) self = self) /\
  (forall base, after (rebase base) self = self) /\
  (forall period dropna, after (log_returns np_log period dropna) self = self) /\
  (forall period dropna, after (pct_returns period dropna) self = self) /\
  after abs_return self = self /\
  (forall base, after (annualized_return base) self = self) /\
  (forall base, after (cagr pow base) self = self) /\
  (forall negative, after (drawdown negative) self = self) /\
  (forall negative, after (max_drawdown negative) self = self).
Proof.
  intros [Hvalid ->]%init_returns.
  split; [now apply stored_strictly_ascending|].
  split; [apply sort_rows_perm|].
  split; [reflexivity|].
  split; [intros; apply set_frequency_reads|].
  split; [intros; apply rebase_reads|].
  split; [intros; apply log_returns_reads|].
  split; [intros; apply pct_returns_reads|].
  split; [apply abs_return_reads|].
  split; [intros; apply annualized_return_reads|].
  split; [intros; apply cagr_reads|].
  split; [intros; apply drawdown_reads | intros; apply max_drawdown_reads].
Qed.

End StoredSeries.

Lemma stored_series_sorted_and_kept_witness :
  let self := {| _series := prices [(day 1, of_int 100); (day 2, of_int 80);
                                   (day 3, of_int 120)] |} in
  __init__ accepted_sample = Returns self /\
  StronglySorted label_lt (pd.rows (_series self)) /\
  after (drawdown true) self = self /\
  after (rebase 100) self = self.
Proof.
  intros self.
  assert (E : __init__ accepted_sample = Returns self) by reflexivity.
  destruct (stored_series_sorted_and_kept (fun v => v) (fun v _ => v)
              (fun s _ _ => Returns s) accepted_sample self E)
    as (Hs & _ & _ & _ & Hr & _ & _ & _ & _ & _ & Hd & _).
  split; [exact E|]. split; [exact Hs|]. split; [apply Hd | apply Hr].
Defined.

(* ------------------------------------------------------------------ *)
(** ** Properties of the drawdown *)

Lemma constructed_positive (s : pd.Series) (self : PricesSeriesAccessor) :
  __init__ s = Returns self -> Forall positive (pd.values (_series self)).
Proof. intros [Hvalid ->]%init_returns. now apply stored_positive. Qed.

Lemma positive_Fin (ps : list Q) :
  Forall positive (map Fin ps) -> Forall (fun p => (0 < p)%Q) ps.
Proof.
  intros H. rewrite Forall_map in H. eapply Forall_impl; [|exact H].
  intros p [Hp | (q & [= <-] & Hq)]; [discriminate | exact Hq].
Qed.

Lemma constructed_prices (s : pd.Series) (self : PricesSeriesAccessor) (ps : list Q) :
  __init__ s = Returns self ->
  pd.values (_series self) = map Fin ps ->
  Forall (fun p => (0 < p)%Q) ps /\ List.length ps = List.length (pd.rows s).
Proof.
  intros Hinit Hps. split.
  - apply positive_Fin. rewrite <- Hps. exact (constructed_positive s self Hinit).
  - apply init_returns in Hinit as [_ ->].
    rewrite (len_prices _ ps Hps). unfold pd.len. symmetry.
    apply Permutation_length, sort_rows_perm.
Qed.

Lemma negated_between (l : list value) :
  Forall (between 0 1) l -> Forall (between (-1) 0) (map vneg l).
Proof.
  intros H. apply Forall_map. eapply Forall_impl; [|exact H].
  intros v Hv. apply vneg_between in Hv. exact Hv.
Qed.

Lemma negated_missing_or_between (l : list value) :
  Forall (missing_or_between 0 1) l -> Forall (missing_or_between (-1) 0) (map vneg l).
Proof.
  intros H. apply Forall_map. eapply Forall_impl; [|exact H].
  intros v Hv. apply vneg_missing_or_between in Hv. exact Hv.
Qed.

(** The drawdown at each position, from the greatest value so far. *)
Lemma drawdown_values_at (vs : list value) (i : nat) (v : value) :
  Forall positive vs -> nth_error vs i = Some v ->
  exists m, running_maximum_value vs i m /\
            nth_error (drawdown_values vs) i = Some (vdiv (vsub m v) m).
Proof.
  intros Hpos Hv.
  assert (Hnotna : Forall (fun v => isna v = false) vs).
  { eapply Forall_impl; [|exact Hpos]. apply positive_notna. }
  destruct (nth_error (pd.cummax_from None vs) i) as [m|] eqn:Hm.
  - exists m. split; [now apply cummax_is_maximum|].
    unfold drawdown_values.
    now rewrite nth_error_map, (nth_error_combine _ _ i m v Hm Hv).
  - apply nth_error_None in Hm. rewrite cummax_from_length in Hm.
    assert (nth_error vs i <> None) as Hsome by congruence.
    apply nth_error_Some in Hsome. lia.
Qed.

(** C2, as stated, fails: the price check lets the positive infinity
    through, and from an infinite price on the running maximum is
    infinite and the drawdown NaN, a value of no interval. *)
Lemma drawdown_bounds_counterexample :
  exists self d,
    __init__ infinite_first_sample = Returns self /\
    pd.rows (_series self) <> [] /\
    result (drawdown false) self = Returns d /\
    pd.values d = [NaN; NaN] /\
    ~ Forall (between 0 1) (pd.values d).
Proof.
  eexists. eexists. split; [reflexivity|]. split; [discriminate|].
  split; [reflexivity|]. split; [reflexivity|].
  intros H. apply Forall_inv in H. destruct H as (q & H & _). discriminate.
Qed.

(** C2 (amended): on a constructed accessor, [drawdown()] returns a series
    over the stored index whose value at each position is the running
    maximum up to that position minus the price there, divided by that
    running maximum; every value is missing or lies in [0, 1], and every
    value of [drawdown(negative=True)] is missing or lies in [-1, 0]; when
    all prices are finite no value is missing.  On the prices 100, 80, 120
    the drawdown is 0, 1/5, 0 and the maximum drawdown 1/5. *)
Theorem drawdown_from_running_maximum :
  (forall (s : pd.Series) (self : PricesSeriesAccessor),
      __init__ s = Returns self ->
      exists (d dn : pd.Series),
        result (drawdown false) self = Returns d /\
        pd.index d = pd.index (_series self) /\
        (forall i v, nth_error (pd.values (_series self)) i = Some v ->
                     exists m, running_maximum_value (pd.values (_series self)) i m /\
                               nth_error (pd.values d) i = Some (vdiv (vsub m v) m)) /\
        Forall (missing_or_between 0 1) (pd.values d) /\
        result (drawdown true) self = Returns dn /\
        Forall (missing_or_between (-1) 0) (pd.values dn) /\
        (forall ps : list Q,
            pd.values (_series self) = map Fin ps ->
            (forall i p, nth_error ps i = Some p ->
                         exists m, running_maximum ps i m /\
                                   nth_error (pd.values d) i
                                   = Some (Fin (Qred ((m - p) / m)))) /\
            Forall (between 0 1) (pd.values d) /\
            Forall (between (-1) 0) (pd.values dn))) /\
  (exists self d,
      __init__ sample_100_80_120 = Returns self /\
      result (drawdown false) self = Returns d /\
      pd.values d = [Fin 0; Fin (1 # 5); Fin 0] /\
      result (max_drawdown false) self = Returns (Fin (1 # 5))).
Proof.
  split.
  - intros s self Hinit.
    pose proof (constructed_positive s self Hinit) as Hpos.
    assert (Hd : pd.values (pd.with_values (_series self)
                              (drawdown_values (pd.values (_series self))))
                 = drawdown_values (pd.values (_series self))).
    { apply values_with_values. rewrite drawdown_values_length. apply values_length. }
    assert (Hdn : pd.values (pd.with_values (_series self)
                               (map vneg (drawdown_values (pd.values (_series self)))))
                  = map vneg (drawdown_values (pd.values (_series self)))).
    { apply values_with_values.
      rewrite length_map, drawdown_values_length. apply values_length. }
    eexists. eexists.
    split; [apply drawdown_false_value|].
    split.
    { apply index_with_values. rewrite drawdown_values_length. apply values_length. }
    split.
    { intros i v Hv. rewrite Hd. now apply drawdown_values_at. }
    split; [rewrite Hd; now apply drawdown_values_bounds|].
    split; [apply drawdown_true_value|].
    split.
    { rewrite Hdn. now apply negated_missing_or_between, drawdown_values_bounds. }
    intros ps Hps.
    destruct (constructed_prices s self ps Hinit Hps) as [Hq _].
    rewrite Hd, Hdn, Hps, drawdown_values_Fin by exact Hq.
    rewrite <- (drawdown_of_values self ps Hps).
    split; [intros i p; now apply drawdown_of_at|].
    split; [now apply drawdown_of_between|].
    apply negated_between. now apply drawdown_of_between.
  - eexists. eexists. split; [reflexivity|]. split; [reflexivity|].
    split; reflexivity.
Qed.

Lemma drawdown_from_running_maximum_witness :
  exists (d dn : pd.Series),
    result (drawdown false) {| _series := prices [(day 1, of_int 100); (day 2, of_int 80)] |}
    = Returns d /\
    Forall (missing_or_between 0 1) (pd.values d) /\
    Forall (between 0 1) (pd.values d) /\
    Forall (between (-1) 0) (pd.values dn).
Proof.
  destruct (proj1 drawdown_from_running_maximum
              (prices [(day 2, of_int 80); (day 1, of_int 100)])
              {| _series := prices [(day 1, of_int 100); (day 2, of_int 80)] |}
              eq_refl)
    as (d & dn & H1 & _ & _ & H2 & _ & _ & H3).
  destruct (H3 [inject_Z 100; inject_Z 80] eq_refl) as (_ & H4 & H5).
  exists d, dn. repeat split; assumption.
Defined.

(** C3: on a constructed accessor, [drawdown(negative=True)] is the
    drawdown series with every value negated, and
    [max_drawdown(negative=True)], the minimum of that negated series, is
    the negation of [max_drawdown(negative=False)]. *)
Theorem negative_drawdown_negates (s : pd.Series) (self : PricesSeriesAccessor) :
  __init__ s = Returns self ->
  exists (d dn : pd.Series) (m : value),
    result (drawdown false) self = Returns d /\
    result (drawdown true) self = Returns dn /\
    pd.index dn = pd.index d /\
    pd.values dn = map vneg (pd.values d) /\
    result (max_drawdown false) self = Returns m /\
    m = pd.max d /\
    result (max_drawdown true) self = Returns (vneg m) /\
    vneg m = pd.min dn.
Proof.
  intros _.
  assert (Hlen : List.length (drawdown_values (pd.values (_series self)))
                 = pd.len (_series self)).
  { rewrite drawdown_values_length. apply values_length. }
  assert (Hlen' : List.length (map vneg (drawdown_values (pd.values (_series self))))
                  = pd.len (_series self)).
  { now rewrite length_map. }
  eexists. eexists. eexists.
  split; [apply drawdown_false_value|].
  split; [apply drawdown_true_value|].
  split; [now rewrite !index_with_values|].
  split; [now rewrite !values_with_values|].
  split; [apply max_drawdown_false_value|].
  split; [unfold pd.max; now rewrite values_with_values|].
  split; [apply max_drawdown_true_value|].
  unfold pd.min. rewrite values_with_values by exact Hlen'.
  symmetry. exact (reduce_vmin_vneg None _).
Qed.

Lemma negative_drawdown_negates_witness :
  exists (d dn : pd.Series) (m : value),
    result (drawdown false) {| _series := sample_100_80_120 |} = Returns d /\
    result (drawdown true) {| _series := sample_100_80_120 |} = Returns dn /\
    pd.values dn = map vneg (pd.values d) /\
    result (max_drawdown true) {| _series := sample_100_80_120 |} = Returns (vneg m).
Proof.
  destruct (negative_drawdown_negates sample_100_80_120
              {| _series := sample_100_80_120 |} eq_refl)
    as (d & dn & m & H1 & H2 & _ & H3 & _ & _ & H4 & _).
  exists d, dn, m. repeat split; assumption.
Defined.

Lemma drawdown_value_peak (p : Q) :
  (0 < p)%Q -> drawdown_value (Fin p, Fin p) = Fin 0.
Proof.
  intros Hp. unfold drawdown_value, vsub. cbn [fst snd].
  rewrite vdiv_Fin by exact Hp. f_equal.
  change 0%Q with (Qred 0). apply Qred_complete. rewrite Qred_correct.
  unfold Qdiv, Qminus. rewrite Qplus_opp_r. apply Qmult_0_l.
Qed.

(** C10, as stated, fails: with an infinite first price the first value
    of the drawdown is NaN, not 0, and so is the maximum drawdown. *)
Lemma first_drawdown_counterexample :
  exists self d,
    __init__ infinite_first_sample = Returns self /\
    pd.rows (_series self) <> [] /\
    result (drawdown false) self = Returns d /\
    pd.iat d 0 = Returns NaN /\
    result (max_drawdown false) self = Returns NaN.
Proof.
  eexists. eexists. split; [reflexivity|]. split; [discriminate|].
  split; [reflexivity|]. split; reflexivity.
Qed.

(** C10 (amended): on an accessor constructed from a series that is not
    empty, the running maximum at the first position is the first price;
    when that price is finite, the first value of [drawdown()] is 0 and
    [max_drawdown()] is a number that is not negative. *)
Theorem first_drawdown_is_zero (s : pd.Series) (self : PricesSeriesAccessor) :
  __init__ s = Returns self ->
  pd.rows s <> [] ->
  exists (kf : Z) (first : value) (d : pd.Series),
    earliest s kf first /\
    pd.iat (_series self) 0 = Returns first /\
    pd.iat (pd.cummax (_series self)) 0 = Returns first /\
    result (drawdown false) self = Returns d /\
    (finite first ->
     pd.iat d 0 = Returns (Fin 0) /\
     exists m : Q, result (max_drawdown false) self = Returns (Fin m) /\ (0 <= m)%Q).
Proof.
  intros Hinit Hne.
  pose proof (constructed_positive s self Hinit) as Hpos.
  apply init_returns in Hinit as [Hvalid ->].
  destruct (earliest_exists s Hne) as (kf & vf & Hf).
  destruct (stored_first s Hvalid _ _ Hf) as (t & E).
  change (pd.sort_index s) with (stored s) in *.
  assert (Hvs : pd.values (stored s) = vf :: map snd t).
  { unfold pd.values. now rewrite E. }
  cbn [_series] in *. rewrite Hvs in Hpos.
  pose proof (Forall_inv Hpos) as Hvf.
  assert (Hd : pd.values (pd.with_values (stored s) (drawdown_values (pd.values (stored s))))
               = drawdown_values (vf :: map snd t)).
  { rewrite <- Hvs. apply values_with_values.
    rewrite drawdown_values_length. apply values_length. }
  exists kf, vf. eexists.
  split; [exact Hf|].
  split; [unfold pd.iat; rewrite Hvs; apply at_position_first|].
  split.
  { unfold pd.iat. rewrite values_cummax, Hvs.
    rewrite cummax_from_cons by now apply positive_notna.
    apply at_position_first. }
  split; [apply drawdown_false_value|].
  intros (pf & ->).
  destruct Hvf as [Hvf | (q & [= <-] & Hpf)]; [discriminate|].
  assert (Hhead : drawdown_values (Fin pf :: map snd t)
                  = Fin 0 :: map drawdown_value
                               (combine (pd.cummax_from (Some (Fin pf)) (map snd t))
                                        (map snd t))).
  { unfold drawdown_values. cbn [pd.cummax_from combine map].
    now rewrite drawdown_value_peak. }
  split.
  { unfold pd.iat. cbn [_series]. rewrite Hd, Hhead. apply at_position_first. }
  pose proof (drawdown_values_bounds _ Hpos) as Hall.
  rewrite Hhead in Hall. apply Forall_inv_tail in Hall.
  assert (H01 : between 0 1 (Fin 0)).
  { exists 0%Q. split; [reflexivity | split; lra]. }
  destruct (reduce_vmax_between 0 1 (Fin 0) _ H01 Hall) as (m & Hm & H0 & _).
  exists m. split; [|exact H0].
  rewrite max_drawdown_false_value. cbn [_series]. rewrite Hvs, Hhead.
  cbn [pd.reduce]. now rewrite Hm.
Qed.

Lemma first_drawdown_is_zero_witness :
  exists (first : value) (d : pd.Series) (m : Q),
    pd.iat sample_100_80_120 0 = Returns first /\
    result (drawdown false) {| _series := sample_100_80_120 |} = Returns d /\
    pd.iat d 0 = Returns (Fin 0) /\
    result (max_drawdown false) {| _series := sample_100_80_120 |} = Returns (Fin m) /\
    (0 <= m)%Q.
Proof.
  assert (Hne : pd.rows sample_100_80_120 <> []) by discriminate.
  destruct (first_drawdown_is_zero sample_100_80_120
              {| _series := sample_100_80_120 |} eq_refl Hne)
    as (kf & first & d & _ & H1 & _ & H2 & H3).
  assert (Hfin : finite first).
  { exists (inject_Z 100). cbn in H1. now injection H1 as <-. }
  destruct (H3 Hfin) as (H4 & m & H5 & H6).
  exists first, d, m. repeat split; assumption.
Defined.

(* ------------------------------------------------------------------ *)
(** ** Properties of the returns *)

Lemma constructed_ends (s : pd.Series) :
  pd.rows s <> [] ->
  exists kf vf kl vl, earliest s kf vf /\ latest s kl vl.
Proof.
  intros Hne.
  destruct (earliest_exists s Hne) as (kf & vf & Hf).
  destruct (latest_exists s Hne) as (kl & vl & Hl).
  now exists kf, vf, kl, vl.
Qed.

(** C4: on an accessor constructed from a series that is not empty,
    [abs_return()] returns the price at the greatest label divided by the
    price at the least label, minus 1.  On the prices 10, 20 it returns 1. *)
Theorem abs_return_last_over_first :
  (forall (s : pd.Series) (self : PricesSeriesAccessor),
      __init__ s = Returns self ->
      pd.rows s <> [] ->
      exists kf vf kl vl,
        earliest s kf vf /\ latest s kl vl /\
        result abs_return self = Returns (vsub (vdiv vl vf) (of_int 1)) /\
        forall pf pl : Q,
          vf = Fin pf -> vl = Fin pl ->
          result abs_return self = Returns (Fin (Qred (pl / pf - 1)))) /\
  (exists self,
      __init__ sample_10_20 = Returns self /\
      result abs_return self = Returns (Fin 1)).
Proof.
  split.
  - intros s self [Hvalid ->]%init_returns Hne.
    destruct (constructed_ends s Hne) as (kf & vf & kl & vl & Hf & Hl).
    exists kf, vf, kl, vl. split; [exact Hf|]. split; [exact Hl|].
    split; [exact (abs_return_value s kf kl vf vl Hvalid Hf Hl)|].
    intros pf pl -> ->.
    exact (abs_return_result s kf kl pf pl Hvalid Hf Hl).
  - eexists. split; reflexivity.
Qed.

Lemma abs_return_last_over_first_witness :
  exists kf vf kl vl,
    earliest accepted_sample kf vf /\ latest accepted_sample kl vl /\
    result abs_return {| _series := sample_100_80_120 |}
    = Returns (vsub (vdiv vl vf) (of_int 1)).
Proof.
  assert (Hne : pd.rows accepted_sample <> []) by discriminate.
  destruct (proj1 abs_return_last_over_first accepted_sample
              {| _series := sample_100_80_120 |} eq_refl Hne)
    as (kf & vf & kl & vl & Hf & Hl & Hr & _).
  exists kf, vf, kl, vl. split; [exact Hf|]. split; [exact Hl | exact Hr].
Defined.


Section Annualisation.

Variable pow : value -> value -> value.


End Annualisation.


(* ------------------------------------------------------------------ *)
(** ** Properties of rebasing and of the percentage returns *)

(** C6, as stated, fails: with an infinite first price the first value of
    the rebased series is NaN, not the base. *)
Lemma rebase_first_counterexample :
  exists self d,
    __init__ infinite_first_sample = Returns self /\
    pd.rows (_series self) <> [] /\
    result (rebase 100) self = Returns d /\
    pd.values d = [NaN; Fin 0] /\
    pd.iat d 0 = Returns NaN.
Proof.
  eexists. eexists. split; [reflexivity|]. split; [discriminate|].
  split; [reflexivity|]. split; reflexivity.
Qed.

(** C6 (amended): on an accessor constructed from a series that is not
    empty, [rebase(base)] returns a series over the stored index in which
    every value is the price divided by the first price and multiplied by
    [base]; when the first price is finite, its first value is [base].
    With base 100 the prices 10, 20, 40 become 100, 200, 400. *)
Theorem rebase_to_base :
  (forall (s : pd.Series) (self : PricesSeriesAccessor) (base : Z),
      __init__ s = Returns self ->
      pd.rows s <> [] ->
      exists (kf : Z) (vf : value) (d : pd.Series),
        earliest s kf vf /\
        result (rebase base) self = Returns d /\
        pd.index d = pd.index (_series self) /\
        pd.values d
        = map (fun v => vmul (vdiv v vf) (of_int base)) (pd.values (_series self)) /\
        forall pf : Q,
          vf = Fin pf ->
          pd.iat d 0 = Returns (of_int base) /\
          forall ps : list Q,
            pd.values (_series self) = map Fin ps ->
            pd.values d = map (fun p => Fin (Qred (p / pf * inject_Z base))) ps) /\
  (exists self d,
      __init__ sample_10_20_40 = Returns self /\
      result (rebase 100) self = Returns d /\
      pd.values d = [of_int 100; of_int 200; of_int 400]).
Proof.
  split.
  - intros s self base [Hvalid ->]%init_returns Hne.
    destruct (earliest_exists s Hne) as (kf & vf & Hf).
    change (pd.sort_index s) with (stored s). cbn [_series].
    exists kf, vf. eexists.
    split; [exact Hf|].
    split; [exact (rebase_value s kf vf Hvalid Hf base)|].
    split; [apply rebase_value_index|].
    split; [apply rebase_value_values|].
    intros pf ->.
    split; [now apply (rebase_first s kf pf base)|].
    intros ps Hps.
    pose proof (rebase_result s kf pf ps Hvalid Hf Hps base) as E.
    rewrite (rebase_value s kf _ Hvalid Hf) in E.
    assert (Ed : pd.with_values (stored s)
                   (map (rebased_value (Fin pf) base) (pd.values (stored s)))
                 = rebase_of s pf ps base) by congruence.
    rewrite Ed. exact (rebase_of_values s pf ps Hps base).
  - eexists. eexists. split; [reflexivity|]. split; reflexivity.
Qed.

Lemma rebase_to_base_witness :
  exists (kf : Z) (vf : value) (d : pd.Series),
    earliest accepted_sample kf vf /\
    result (rebase 100) {| _series := sample_100_80_120 |} = Returns d /\
    pd.values d
    = map (fun v => vmul (vdiv v vf) (of_int 100)) (pd.values sample_100_80_120).
Proof.
  assert (Hne : pd.rows accepted_sample <> []) by discriminate.
  destruct (proj1 rebase_to_base accepted_sample
              {| _series := sample_100_80_120 |} 100 eq_refl Hne)
    as (kf & vf & d & H1 & H2 & _ & H3 & _).
  exists kf, vf, d.
  split; [exact H1|]. split; [exact H2 | exact H3].
Defined.

(** C7: on a constructed accessor, [pct_returns(period)] returns a series
    over the stored index whose value at each position is the price there
    divided by the price [period] positions earlier, minus 1, and NaN where
    there is no such price; with [dropna] the rows holding NaN are left
    out, which for finite prices and a period that is not negative are the
    first [period] rows.  [pct_returns(dropna=True)] on the prices 10, 20,
    40 is 1, 1: two values, none missing. *)
Theorem pct_returns_by_period :
  (forall (s : pd.Series) (self : PricesSeriesAccessor) (period : Z),
      __init__ s = Returns self ->
      exists (d : pd.Series),
        result (pct_returns period false) self = Returns d /\
        pd.index d = pd.index (_series self) /\
        (forall i v, nth_error (pd.values (_series self)) i = Some v ->
                     nth_error (pd.values d) i
                     = Some (pct_value v (lagged (pd.values (_series self)) period i))) /\
        result (pct_returns period true) self = Returns (pd.dropna d) /\
        Forall (fun v => isna v = false) (pd.values (pd.dropna d)) /\
        forall ps : list Q,
          pd.values (_series self) = map Fin ps ->
          (forall i p, nth_error ps i = Some p ->
                       nth_error (pd.values d) i = Some (pct_of p (lagged ps period i))) /\
          (0 <= period ->
           pd.rows (pd.dropna d) = skipn (Z.to_nat period) (pd.rows d))) /\
  (exists self d,
      __init__ sample_10_20_40 = Returns self /\
      result (pct_returns 1 true) self = Returns d /\
      pd.values d = [of_int 1; of_int 1] /\
      pd.len d = 2%nat /\
      Forall (fun v => isna v = false) (pd.values d)).
Proof.
  split.
  - intros s self period Hinit.
    pose proof (constructed_positive s self Hinit) as Hpos.
    assert (Hnotna : Forall (fun v => isna v = false) (pd.values (_series self))).
    { eapply Forall_impl; [|exact Hpos]. apply positive_notna. }
    eexists.
    split; [exact (pct_returns_value self Hnotna period false)|].
    split; [apply pct_values_stored_index|].
    split.
    { intros i v Hv. rewrite pct_values_stored_values. now apply pct_values_at. }
    split; [exact (pct_returns_value self Hnotna period true)|].
    split; [apply dropna_notna|].
    intros ps Hps.
    destruct (constructed_prices s self ps Hinit Hps) as [Hq _].
    assert (E : pd.with_values (_series self) (pct_values (pd.values (_series self)) period)
                = pct_change_of self ps period).
    { unfold pct_change_of, pct_change_values. now rewrite Hps. }
    rewrite E. split.
    + intros i p Hp. rewrite (pct_change_of_values self ps Hps).
      now apply pct_change_at.
    + intros Hp. now apply pct_change_head.
  - eexists. eexists. split; [reflexivity|]. split; [reflexivity|].
    split; [reflexivity|]. split; [reflexivity|]. repeat constructor.
Qed.

Lemma pct_returns_by_period_witness :
  exists (d : pd.Series),
    result (pct_returns 2 false) {| _series := sample_100_80_120 |} = Returns d /\
    result (pct_returns 2 true) {| _series := sample_100_80_120 |}
    = Returns (pd.dropna d) /\
    pd.rows (pd.dropna d) = skipn 2 (pd.rows d).
Proof.
  destruct (proj1 pct_returns_by_period accepted_sample
              {| _series := sample_100_80_120 |} 2 eq_refl)
    as (d & H2 & _ & _ & H3 & _ & H4).
  destruct (H4 [inject_Z 100; inject_Z 80; inject_Z 120] eq_refl) as [_ H5].
  exists d. split; [exact H2|]. split; [exact H3|].
  apply H5. discriminate.
Defined.

(* ------------------------------------------------------------------ *)
(** ** Construction: what is accepted, and what it depends on *)

(** X1: construction succeeds exactly on the series with a date/time index,
    no label twice and positive prices only; the accessor then holds the
    sorted series, whose prices are all positive. *)
Theorem construction_accepts_exactly (s : pd.Series) (self : PricesSeriesAccessor) :
  __init__ s = Returns self <->
  (datetime_indexed s /\ NoDup (pd.labels (pd.index s)) /\ Forall positive (pd.values s)) /\
  self = {| _series := pd.sort_index s |} /\
  Forall positive (pd.values (_series self)).
Proof.
  rewrite init_returns, validate_returns. split.
  - intros [(Hdt & Hnd & Hpos) ->]. split; [now repeat split|]. split; [reflexivity|].
    unfold pd.values in *. simpl.
    eapply Permutation_Forall; [|exact Hpos].
    apply Permutation_map, sort_rows_perm.
  - intros (H & -> & _). now split.
Qed.

Lemma construction_accepts_exactly_witness :
  (datetime_indexed accepted_sample /\
   NoDup (pd.labels (pd.index accepted_sample)) /\
   Forall positive (pd.values accepted_sample)) /\
  Forall positive (pd.values sample_100_80_120).
Proof.
  destruct (proj1 (construction_accepts_exactly accepted_sample
                     {| _series := sample_100_80_120 |}) eq_refl)
    as (H & _ & Hpos).
  split; [exact H | exact Hpos].
Defined.

(** Two strictly ascending lists with the same rows are the same list. *)
Lemma sorted_permutation_eq (l l' : list (Z * value)) :
  StronglySorted label_lt l -> StronglySorted label_lt l' ->
  Permutation l l' -> l = l'.
Proof.
  intros Hl. revert l'. induction Hl as [|x t Hs IH Hx]; intros l' Hl' Hperm.
  - now apply Permutation_nil in Hperm.
  - destruct Hl' as [|y t' Hs' Hy].
    + apply Permutation_sym, Permutation_nil in Hperm. discriminate.
    + assert (x = y) as <-.
      { assert (Hinx : In x (y :: t')) by (apply (Permutation_in _ Hperm); now left).
        assert (Hiny : In y (x :: t))
          by (apply (Permutation_in _ (Permutation_sym Hperm)); now left).
        destruct Hinx as [E|Hinx]; [now symmetry|].
        destruct Hiny as [E|Hiny]; [exact E|].
        rewrite Forall_forall in Hx, Hy.
        specialize (Hx _ Hiny). specialize (Hy _ Hinx).
        unfold label_lt in *. lia. }
      f_equal. apply IH; [exact Hs'|].
      now apply Permutation_cons_inv in Hperm.
Qed.

Lemma sorted_sort_rows (l : list (Z * value)) :
  StronglySorted label_lt l -> pd.sort_rows l = l.
Proof.
  intros Hl. symmetry. apply sorted_permutation_eq.
  - exact Hl.
  - apply sorted_unique_strict; [apply sort_rows_sorted|].
    eapply Permutation_NoDup; [apply Permutation_map, sort_rows_perm|].
    clear -Hl. induction Hl as [|x t Hs IH Hx]; simpl; constructor.
    + intros Hin. apply in_map_iff in Hin as (y & E & Hy).
      rewrite Forall_forall in Hx. specialize (Hx _ Hy).
      unfold label_lt in Hx. lia.
    + exact IH.
  - apply sort_rows_perm.
Qed.

(** The checks of [_validate] do not look at the order of the rows. *)
Lemma validate_permutation (s s' : pd.Series) :
  pd.index_dtype_of s = pd.index_dtype_of s' ->
  Permutation (pd.rows s) (pd.rows s') ->
  _validate s = _validate s'.
Proof.
  intros Hdt Hperm. unfold _validate.
  assert (E1 : pd.inferred_type (pd.index s) = pd.inferred_type (pd.index s')).
  { unfold pd.inferred_type, pd.index. simpl. now rewrite Hdt. }
  assert (E2 : pd.is_unique (pd.index s) = pd.is_unique (pd.index s')).
  { unfold pd.is_unique, pd.index. simpl.
    pose proof (Permutation_map fst Hperm) as Hk.
    destruct (pd.unique (map fst (pd.rows s))) eqn:U;
      destruct (pd.unique (map fst (pd.rows s'))) eqn:U'; try reflexivity.
    - apply unique_NoDup in U. apply (Permutation_NoDup Hk), unique_NoDup in U. congruence.
    - apply unique_NoDup in U'.
      apply (Permutation_NoDup (Permutation_sym Hk)), unique_NoDup in U'. congruence. }
  assert (E3 : pd.all (pd.series_gt s (of_int 0)) = pd.all (pd.series_gt s' (of_int 0))).
  { pose proof (Permutation_map snd Hperm) as Hv.
    destruct (pd.all (pd.series_gt s (of_int 0))) eqn:A;
      destruct (pd.all (pd.series_gt s' (of_int 0))) eqn:A'; try reflexivity.
    - apply all_series_gt in A.
      apply (Permutation_Forall Hv), all_series_gt in A. congruence.
    - apply all_series_gt in A'.
      apply (Permutation_Forall (Permutation_sym Hv)), all_series_gt in A'. congruence. }
  now rewrite E1, E2, E3.
Qed.

Lemma sort_index_permutation (s s' : pd.Series) :
  pd.index_dtype_of s = pd.index_dtype_of s' ->
  Permutation (pd.rows s) (pd.rows s') ->
  NoDup (pd.labels (pd.index s)) ->
  pd.sort_index s = pd.sort_index s'.
Proof.
  intros Hdt Hperm Hnd. unfold pd.sort_index. rewrite Hdt. f_equal.
  assert (Hnd' : NoDup (map fst (pd.rows s'))).
  { eapply Permutation_NoDup; [apply Permutation_map, Hperm | exact Hnd]. }
  apply sorted_permutation_eq.
  - apply sorted_unique_strict; [apply sort_rows_sorted|].
    now apply sort_rows_labels_NoDup.
  - apply sorted_unique_strict; [apply sort_rows_sorted|].
    now apply sort_rows_labels_NoDup.
  - rewrite <- (sort_rows_perm (pd.rows s)), <- (sort_rows_perm (pd.rows s')). exact Hperm.
Qed.

(** X2: construction does not depend on the order of the rows of its
    input: two series with the same index dtype and the same rows in any
    order give the same outcome, the same accessor or the same error. *)
Theorem construction_ignores_row_order (s s' : pd.Series) :
  pd.index_dtype_of s = pd.index_dtype_of s' ->
  Permutation (pd.rows s) (pd.rows s') ->
  __init__ s = __init__ s'.
Proof.
  intros Hdt Hperm. unfold __init__.
  rewrite <- (validate_permutation s s' Hdt Hperm).
  destruct (_validate s) as [[]|e] eqn:V; try reflexivity.
  simpl. do 2 f_equal.
  apply sort_index_permutation; try assumption.
  now apply validate_returns in V as (_ & Hnd & _).
Qed.

Lemma construction_ignores_row_order_witness :
  __init__ accepted_sample = __init__ sample_100_80_120.
Proof.
  apply construction_ignores_row_order.
  - reflexivity.
  - apply perm_swap.
Defined.

(** X3: constructing an accessor again from the series an accessor holds
    gives that same accessor. *)
Theorem construction_is_idempotent (s : pd.Series) (self : PricesSeriesAccessor) :
  __init__ s = Returns self -> __init__ (_series self) = Returns self.
Proof.
  intros Hinit. pose proof Hinit as [Hvalid ->]%init_returns.
  apply init_returns. simpl. split.
  - rewrite <- Hvalid. symmetry. apply validate_permutation; [reflexivity|].
    apply sort_rows_perm.
  - f_equal. unfold pd.sort_index. cbn [pd.index_dtype_of pd.rows]. f_equal.
    symmetry. apply sorted_sort_rows.
    now apply (stored_strictly_ascending s).
Qed.

Lemma construction_is_idempotent_witness :
  __init__ sample_100_80_120 = Returns {| _series := sample_100_80_120 |}.
Proof.
  exact (construction_is_idempotent accepted_sample
           {| _series := sample_100_80_120 |} eq_refl).
Defined.

(* ------------------------------------------------------------------ *)
(* ------------------------------------------------------------------ *)
(** ** The empty series *)

Lemma empty_accessor (s : pd.Series) (self : PricesSeriesAccessor) :
  __init__ s = Returns self -> pd.rows s = [] -> self = {| _series := prices [] |}.
Proof.
  intros [Hvalid ->]%init_returns Hrows.
  apply validate_returns in Hvalid as (Hdt%datetime_indexed_dtype & _).
  destruct s as [dt r]. simpl in *. subst. reflexivity.
Qed.

(** X4: an empty series with a date/time index is accepted, and on its
    accessor every method that reads the first or the last price raises
    IndexError: [abs_return], [rebase], [annualized_return] and [cagr]. *)
Theorem empty_series_raises_IndexError (s : pd.Series) :
  datetime_indexed s -> pd.rows s = [] ->
  exists self,
    __init__ s = Returns self /\
    result abs_return self = Raises IndexError /\
    (forall base, result (rebase base) self = Raises IndexError) /\
    (forall base, result (annualized_return base) self = Raises IndexError) /\
    (forall pow base, result (cagr pow base) self = Raises IndexError).
Proof.
  intros Hdt Hrows.
  assert (Hinit : __init__ s = Returns {| _series := pd.sort_index s |}).
  { apply init_returns. split; [|reflexivity]. apply validate_returns.
    unfold pd.index, pd.values. simpl. rewrite Hrows. simpl.
    split; [exact Hdt|]. split; constructor. }
  exists {| _series := pd.sort_index s |}. split; [exact Hinit|].
  rewrite (empty_accessor s _ Hinit Hrows).
  repeat split; intros; reflexivity.
Qed.

Lemma empty_series_raises_IndexError_witness :
  exists self,
    __init__ (prices []) = Returns self /\
    result abs_return self = Raises IndexError /\
    result (rebase 100) self = Raises IndexError.
Proof.
  destruct (empty_series_raises_IndexError (prices []) eq_refl eq_refl)
    as (self & H1 & H2 & H3 & _).
  exists self. split; [exact H1|]. split; [exact H2 | apply H3].
Defined.

(** X5: on the accessor of an empty series [drawdown] and [pct_returns]
    return an empty series, whatever their arguments, and [max_drawdown]
    returns NaN. *)
Theorem empty_series_returns_empty (s : pd.Series) (self : PricesSeriesAccessor) :
  __init__ s = Returns self -> pd.rows s = [] ->
  (forall negative, result (drawdown negative) self = Returns (prices [])) /\
  (forall negative, result (max_drawdown negative) self = Returns NaN) /\
  (forall period dropna, result (pct_returns period dropna) self = Returns (prices [])).
Proof.
  intros Hinit Hrows. rewrite (empty_accessor s self Hinit Hrows).
  split; [intros []; reflexivity|].
  split; [intros []; reflexivity|].
  intros period []; reflexivity.
Qed.

Lemma empty_series_returns_empty_witness :
  result (drawdown true) {| _series := prices [] |} = Returns (prices []) /\
  result (max_drawdown false) {| _series := prices [] |} = Returns NaN /\
  result (pct_returns 3 true) {| _series := prices [] |} = Returns (prices []).
Proof.
  destruct (empty_series_returns_empty (prices []) {| _series := prices [] |}
              eq_refl eq_refl) as (H1 & H2 & H3).
  split; [apply H1|]. split; [apply H2 | apply H3].
Defined.

(* ------------------------------------------------------------------ *)
(** ** Returns: sign, and the day count *)

Lemma quotient_not_negative (pf pl : Q) :
  (0 < pf)%Q -> (0 < pl)%Q -> (0 <= pl / pf)%Q.
Proof.
  intros Hf Hl. apply Qle_shift_div_l; [exact Hf | lra].
Qed.

(** The return from one positive price to another, when one of them is
    finite, is not below -1. *)
Lemma total_return_not_below_minus_one (vf vl : value) :
  positive vf -> positive vl -> finite vf \/ finite vl ->
  ge (vsub (vdiv vl vf) (of_int 1)) (of_int (-1)) = true /\
  ge (vadd (of_int 1) (vsub (vdiv vl vf) (of_int 1))) (of_int 0) = true.
Proof.
  intros [-> | (pf & -> & Hf)] [-> | (pl & -> & Hl)] Hfin.
  - destruct Hfin as [(q & H) | (q & H)]; discriminate.
  - split; reflexivity.
  - unfold vdiv. assert (E : Qle_bool 0 pf = true) by (apply Qle_bool_iff; lra).
    rewrite E. split; reflexivity.
  - pose proof (quotient_not_negative pf pl Hf Hl) as Hq.
    rewrite vdiv_Fin by exact Hf. unfold vsub, vadd, of_int, ge.
    rewrite !Qle_bool_iff, !Qred_correct.
    change (inject_Z 1) with 1%Q. change (inject_Z (-1)) with (-1)%Q.
    change (inject_Z 0) with 0%Q. split; lra.
Qed.

(** X6: on a constructed accessor whose first or last price is finite,
    [abs_return()] is not NaN and not below -1, so that 1 + [abs_return()],
    the base of the power [cagr] takes, is not below 0. *)
Theorem abs_return_above_minus_one
    (s : pd.Series) (self : PricesSeriesAccessor) (kf kl : Z) (vf vl : value) :
  __init__ s = Returns self ->
  earliest s kf vf ->
  latest s kl vl ->
  finite vf \/ finite vl ->
  exists r,
    result abs_return self = Returns r /\
    isna r = false /\
    ge r (of_int (-1)) = true /\
    ge (vadd (of_int 1) r) (of_int 0) = true.
Proof.
  intros [Hvalid ->]%init_returns Hf Hl Hfin.
  destruct (total_return_not_below_minus_one vf vl
              (valid_row_positive s kf vf Hvalid (proj1 Hf))
              (valid_row_positive s kl vl Hvalid (proj1 Hl)) Hfin) as [H1 H2].
  exists (vsub (vdiv vl vf) (of_int 1)).
  split; [exact (abs_return_value s kf kl vf vl Hvalid Hf Hl)|].
  split; [|split; assumption].
  destruct (vsub (vdiv vl vf) (of_int 1)); [discriminate | reflexivity..].
Qed.

Lemma abs_return_above_minus_one_witness :
  exists r,
    result abs_return {| _series := sample_10_20 |} = Returns r /\
    isna r = false /\
    ge r (of_int (-1)) = true /\
    ge (vadd (of_int 1) r) (of_int 0) = true.
Proof.
  assert (Hf : earliest sample_10_20 (day 1) (Fin (inject_Z 10))).
  { split; [now left|]. intros r [<-|[<-|[]]]; discriminate. }
  assert (Hl : latest sample_10_20 (day 2) (Fin (inject_Z 20))).
  { split; [right; now left|]. intros r [<-|[<-|[]]]; discriminate. }
  assert (Hfin : finite (Fin (inject_Z 10)) \/ finite (Fin (inject_Z 20))).
  { left. now exists (inject_Z 10). }
  exact (abs_return_above_minus_one sample_10_20 {| _series := sample_10_20 |}
           _ _ _ _ eq_refl Hf Hl Hfin).
Defined.

Lemma ends_ordered (s : pd.Series) (kf kl : Z) (vf vl : value) :
  earliest s kf vf -> latest s kl vl -> kf <= kl.
Proof.
  intros [_ Hmin] [Hin _]. exact (Hmin _ Hin).
Qed.


Lemma whole_days_zero (s : pd.Series) (kf kl : Z) (vf vl : value) :
  earliest s kf vf -> latest s kl vl ->
  kl - kf < pd.ns_per_day -> whole_days kf kl = 0.
Proof.
  intros Hf Hl Hlt. pose proof (ends_ordered s kf kl vf vl Hf Hl).
  unfold whole_days. apply Z.div_small. lia.
Qed.

(** X7: when the least and the greatest label of a constructed series are
    less than one day apart, the day count is 0: [cagr] raises
    ZeroDivisionError for every base, and [annualized_return] divides by
    zero, which gives NaN when the return times the base is zero and the
    infinity of its sign otherwise. *)
Theorem less_than_a_day_apart
    (pow : value -> value -> value) (s : pd.Series) (self : PricesSeriesAccessor)
    (base : Z) (kf kl : Z) (pf pl : Q) :
  __init__ s = Returns self ->
  earliest s kf (Fin pf) ->
  latest s kl (Fin pl) ->
  kl - kf < pd.ns_per_day ->
  result elapsed_days self = Returns 0 /\
  result (cagr pow base) self = Raises ZeroDivisionError /\
  result (annualized_return base) self
  = Returns (match ((pl / pf - 1) * inject_Z base ?= 0)%Q with
             | Eq => NaN
             | Gt => PInf
             | Lt => NInf
             end).
Proof.
  intros [Hvalid ->]%init_returns Hf Hl Hlt.
  pose proof (whole_days_zero s kf kl _ _ Hf Hl Hlt) as Hdays.
  change (pd.sort_index s) with (stored s).
  split.
  { rewrite (elapsed_days_result s kf kl _ _ Hvalid Hf Hl). now rewrite Hdays. }
  split; [exact (cagr_zero_days s kf kl _ _ Hvalid Hf Hl pow base Hdays)|].
  exact (annualized_return_zero_days s kf kl pf pl Hvalid Hf Hl base Hdays).
Qed.

Lemma less_than_a_day_apart_witness :
  result elapsed_days {| _series := half_day_sample |} = Returns 0 /\
  result (cagr (fun v _ => v) 365) {| _series := half_day_sample |}
  = Raises ZeroDivisionError /\
  result (annualized_return 365) {| _series := half_day_sample |} = Returns PInf.
Proof.
  assert (Hf : earliest half_day_sample (day 1) (Fin (inject_Z 10))).
  { split; [now left|]. intros r [<-|[<-|[]]]; discriminate. }
  assert (Hl : latest half_day_sample (day 1 + 43200 * 1000000000) (Fin (inject_Z 20))).
  { split; [right; now left|]. intros r [<-|[<-|[]]]; discriminate. }
  assert (Hd : day 1 + 43200 * 1000000000 - day 1 < pd.ns_per_day) by reflexivity.
  exact (less_than_a_day_apart (fun v _ => v) half_day_sample
           {| _series := half_day_sample |} 365 _ _ _ _ eq_refl Hf Hl Hd).
Defined.

(** X8: a series of one row is accepted when its price is a positive
    number or the positive infinity.  With a positive number
    [abs_return()] is 0, [cagr] raises ZeroDivisionError and
    [annualized_return] returns NaN, for every base; with the infinity
    [abs_return()] is NaN. *)
Theorem single_row_returns
    (pow : value -> value -> value) (k : Z) (p : Q) (base : Z) :
  (0 < p)%Q ->
  (exists self,
      __init__ (prices [(k, Fin p)]) = Returns self /\
      result abs_return self = Returns (Fin 0) /\
      result (cagr pow base) self = Raises ZeroDivisionError /\
      result (annualized_return base) self = Returns NaN) /\
  (exists self,
      __init__ (prices [(k, PInf)]) = Returns self /\
      result abs_return self = Returns NaN).
Proof.
  intros Hp. split; [|eexists; split; reflexivity].
  set (s := prices [(k, Fin p)]).
  assert (Hvalid : _validate s = Returns tt).
  { apply validate_returns. split; [reflexivity|]. split.
    - repeat constructor. intros [].
    - apply Forall_cons; [|apply Forall_nil]. right. now exists p. }
  assert (Hf : earliest s k (Fin p)).
  { split; [now left|]. intros r [<-|[]]. simpl. lia. }
  assert (Hl : latest s k (Fin p)).
  { split; [now left|]. intros r [<-|[]]. simpl. lia. }
  assert (Hr : (total_return p p == 0)%Q).
  { unfold total_return, Qdiv. rewrite Qmult_inv_r by lra. ring. }
  assert (Hdays : whole_days k k = 0).
  { unfold whole_days. now rewrite Z.sub_diag. }
  exists {| _series := stored s |}.
  split; [apply init_returns; now split|].
  split.
  { rewrite (abs_return_result s k k p p Hvalid Hf Hl). do 2 f_equal.
    change 0%Q with (Qred 0). now apply Qred_complete. }
  split; [exact (cagr_zero_days s k k _ _ Hvalid Hf Hl pow base Hdays)|].
  rewrite (annualized_return_zero_days s k k p p Hvalid Hf Hl base Hdays).
  assert (E : (total_return p p * inject_Z base == 0)%Q) by (rewrite Hr; ring).
  now rewrite E.
Qed.

Lemma single_row_returns_witness :
  exists self,
    __init__ (prices [(day 1, Fin 5)]) = Returns self /\
    result abs_return self = Returns (Fin 0) /\
    result (cagr (fun v _ => v) 365) self = Raises ZeroDivisionError /\
    result (annualized_return 365) self = Returns NaN.
Proof.
  assert (H : (0 < 5)%Q) by reflexivity.
  exact (proj1 (single_row_returns (fun v _ => v) (day 1) 5 365 H)).
Defined.





(* ------------------------------------------------------------------ *)
(** ** Drawdown: highs, the bound and the maximum *)

Lemma nth_error_In_firstn {A : Type} (l : list A) (i : nat) (a : A) :
  nth_error l i = Some a -> In a (firstn (S i) l).
Proof.
  revert i. induction l as [|x t IH]; intros [|i]; simpl; try discriminate.
  - intros [= ->]. now left.
  - intros H. right. exact (IH i H).
Qed.

Lemma In_firstn {A : Type} (l : list A) (n : nat) (a : A) :
  In a (firstn n l) -> In a l.
Proof.
  rewrite <- (firstn_skipn n l) at 2. intros H. apply in_or_app. now left.
Qed.

Lemma running_maximum_positive (ps : list Q) (i : nat) (m : Q) :
  Forall (fun p => (0 < p)%Q) ps -> running_maximum ps i m -> (0 < m)%Q.
Proof.
  intros Hpos [Hin _]. rewrite Forall_forall in Hpos.
  apply Hpos. eapply In_firstn, Hin.
Qed.

(** The drawdown is zero exactly when the price is the running maximum. *)
Lemma drawdown_zero_iff (m p : Q) :
  (0 < m)%Q -> (Qred ((m - p) / m) = 0%Q <-> m == p)%Q.
Proof.
  intros Hm. split.
  - intros E.
    assert (H : ((m - p) / m == 0)%Q) by (rewrite <- E; symmetry; apply Qred_correct).
    assert (H' : (m * ((m - p) / m) == m - p)%Q) by (apply Qmult_div_r; lra).
    rewrite H in H'. lra.
  - intros E. change 0%Q with (Qred 0). apply Qred_complete.
    unfold Qdiv. rewrite E. ring.
Qed.

(** X10: on a series of finite prices, at each position the drawdown is 0
    exactly when the price there is at least every earlier price, a new
    high. *)
Theorem drawdown_zero_at_highs
    (s : pd.Series) (self : PricesSeriesAccessor) (ps : list Q) :
  __init__ s = Returns self ->
  pd.values (_series self) = map Fin ps ->
  exists (d : pd.Series),
    result (drawdown false) self = Returns d /\
    forall i p, nth_error ps i = Some p ->
                (nth_error (pd.values d) i = Some (Fin 0) <->
                 Forall (fun x => (x <= p)%Q) (firstn (S i) ps)).
Proof.
  intros Hinit Hps.
  destruct (constructed_prices s self ps Hinit Hps) as [Hpos _].
  exists (drawdown_of self ps).
  split; [now apply drawdown_false_result|].
  intros i p Hp.
  destruct (drawdown_of_at self ps Hps i p Hp) as (m & Hm & Hnth).
  pose proof (running_maximum_positive ps i m Hpos Hm) as Hm0.
  destruct Hm as [Hin Hall]. rewrite Hnth. split.
  - intros [= E]. apply (drawdown_zero_iff m p Hm0) in E.
    eapply Forall_impl; [|exact Hall]. intros x Hx. simpl in Hx. lra.
  - intros Hle. do 2 f_equal. apply (drawdown_zero_iff m p Hm0).
    rewrite Forall_forall in Hle, Hall.
    pose proof (Hle _ Hin). pose proof (Hall _ (nth_error_In_firstn ps i p Hp)).
    simpl in *. lra.
Qed.

Lemma drawdown_zero_at_highs_witness :
  exists (d : pd.Series),
    result (drawdown false) {| _series := sample_100_80_120 |} = Returns d /\
    forall i p, nth_error [inject_Z 100; inject_Z 80; inject_Z 120] i = Some p ->
                (nth_error (pd.values d) i = Some (Fin 0) <->
                 Forall (fun x => (x <= p)%Q)
                        (firstn (S i) [inject_Z 100; inject_Z 80; inject_Z 120])).
Proof.
  exact (drawdown_zero_at_highs accepted_sample {| _series := sample_100_80_120 |}
           [inject_Z 100; inject_Z 80; inject_Z 120] eq_refl eq_refl).
Defined.

(** [max] of a list of numbers is at least each of them. *)
Lemma reduce_vmax_from (a : Q) (qs : list Q) :
  exists r, pd.reduce vmax (Some (Fin a)) (map Fin qs) = Fin r /\
            (a <= r)%Q /\ Forall (fun q => (q <= r)%Q) qs.
Proof.
  revert a. induction qs as [|q t IH]; intros a; simpl.
  - exists a. split; [reflexivity|]. split; [apply Qle_refl | constructor].
  - assert (E : vmax (Fin a) (Fin q) = Fin (qmax a q)).
    { unfold vmax, ge, qmax. now destruct (Qle_bool q a). }
    rewrite E. destruct (IH (qmax a q)) as (r & Hr & Ha & Hall).
    exists r. split; [exact Hr|].
    destruct (qmax_cases a q) as [[Eq Hle]|[Eq Hle]]; rewrite Eq in Ha.
    + split; [exact Ha|]. constructor; [|exact Hall]. eapply Qle_trans; eassumption.
    + split; [eapply Qle_trans; eassumption|]. constructor; assumption.
Qed.

Lemma reduce_vmax_greatest (qs : list Q) :
  qs <> [] ->
  exists r, pd.reduce vmax None (map Fin qs) = Fin r /\
            In r qs /\ Forall (fun q => (q <= r)%Q) qs.
Proof.
  destruct qs as [|q t]; [congruence|]. intros _. simpl.
  destruct (reduce_vmax_from q t) as (r & Hr & Hq & Hall).
  exists r. split; [exact Hr|]. split; [|now constructor].
  pose proof (reduce_from vmax vmax_either (Fin q) (map Fin t)) as Hin.
  rewrite Hr in Hin. destruct Hin as [[= ->]|Hin]; [now left|].
  apply in_map_iff in Hin as (r' & [= ->] & Hin). now right.
Qed.

Lemma Forall_Fin (P : Q -> Prop) (l : list value) :
  Forall (fun v => exists q, v = Fin q /\ P q) l ->
  exists qs, l = map Fin qs /\ Forall P qs.
Proof.
  induction 1 as [|v t (q & -> & Hq) _ (qs & -> & Hqs)].
  - now exists [].
  - exists (q :: qs). split; [reflexivity | now constructor].
Qed.

Lemma vmax_Fin (a q : Q) : vmax (Fin a) (Fin q) = Fin (qmax a q).
Proof. unfold vmax, ge, qmax. now destruct (Qle_bool q a). Qed.

(** [max] skips the missing values: over values that are missing or
    numbers it is the greatest of the numbers. *)
Lemma reduce_vmax_skipna_from (lo hi : Q) (a : Q) (l : list value) :
  Forall (missing_or_between lo hi) l ->
  exists r, pd.reduce vmax (Some (Fin a)) l = Fin r /\ (a <= r)%Q /\
            (forall q, In (Fin q) l -> (q <= r)%Q) /\ In (Fin r) (Fin a :: l).
Proof.
  intros Hl. revert a. induction Hl as [|v t Hv _ IH]; intros a.
  - exists a. split; [reflexivity|]. split; [apply Qle_refl|].
    split; [intros q [] | now left].
  - destruct Hv as [-> | (q & -> & _)]; cbn [pd.reduce].
    + destruct (IH a) as (r & Hr & Ha & Hall & Hin).
      exists r. split; [exact Hr|]. split; [exact Ha|]. split.
      * intros q [Hq | Hq]; [discriminate | now apply Hall].
      * destruct Hin as [Hin | Hin]; [now left | right; now right].
    + rewrite vmax_Fin. destruct (IH (qmax a q)) as (r & Hr & Ha & Hall & Hin).
      exists r. split; [exact Hr|].
      destruct (qmax_cases a q) as [[Eq Hle]|[Eq Hle]]; rewrite Eq in Ha, Hin.
      * split; [exact Ha|]. split.
        { intros q' [[= <-] | Hq]; [eapply Qle_trans; eassumption | now apply Hall]. }
        destruct Hin as [Hin | Hin]; [now left | right; now right].
      * split; [eapply Qle_trans; eassumption|]. split.
        { intros q' [[= <-] | Hq]; [exact Ha | now apply Hall]. }
        destruct Hin as [Hin | Hin]; [right; now left | right; now right].
Qed.

Lemma reduce_vmax_skipna (lo hi : Q) (l : list value) :
  Forall (missing_or_between lo hi) l ->
  (Forall (fun v => v = NaN) l /\ pd.reduce vmax None l = NaN) \/
  (exists r, pd.reduce vmax None l = Fin r /\ In (Fin r) l /\
             forall q, In (Fin q) l -> (q <= r)%Q).
Proof.
  induction 1 as [|v t Hv Ht IH].
  - left. split; [constructor | reflexivity].
  - destruct Hv as [-> | (q & -> & _)]; cbn [pd.reduce].
    + destruct IH as [[Hall Hr] | (r & Hr & Hin & Hmax)].
      * left. split; [now constructor | exact Hr].
      * right. exists r. split; [exact Hr|]. split; [now right|].
        intros q [Hq | Hq]; [discriminate | now apply Hmax].
    + right. destruct (reduce_vmax_skipna_from lo hi q t Ht) as (r & Hr & Hq & Hall & Hin).
      exists r. split; [exact Hr|]. split; [exact Hin|].
      intros q' [[= <-] | Hq']; [exact Hq | now apply Hall].
Qed.

Lemma drawdown_maximum (self : PricesSeriesAccessor) (ps : list Q) :
  pd.values (_series self) = map Fin ps ->
  Forall (fun p => (0 < p)%Q) ps ->
  ps <> [] ->
  exists m, pd.max (drawdown_of self ps) = Fin m /\
            In (Fin m) (pd.values (drawdown_of self ps)) /\
            (forall q, In (Fin q) (pd.values (drawdown_of self ps)) -> (q <= m)%Q).
Proof.
  intros Hps Hpos Hne.
  pose proof (drawdown_of_between self ps Hps Hpos) as Hall.
  destruct (Forall_Fin _ _ Hall) as (qs & Hqs & Hbound).
  assert (Hqs_ne : qs <> []).
  { intros ->. rewrite (drawdown_of_values self ps Hps) in Hqs.
    apply map_eq_nil in Hqs. apply (f_equal (@List.length _)) in Hqs.
    rewrite peaks_length in Hqs. simpl in Hqs.
    destruct ps; [congruence | discriminate]. }
  destruct (reduce_vmax_greatest qs Hqs_ne) as (m & Hm & Hin & Hmax).
  exists m.
  split; [unfold pd.max; now rewrite Hqs, Hm|].
  split; [rewrite Hqs; now apply in_map|].
  intros q Hq. rewrite Hqs in Hq. apply in_map_iff in Hq as (q' & [= ->] & Hq).
  rewrite Forall_forall in Hmax. now apply Hmax.
Qed.

(** X11: [max_drawdown()] skips the missing values of [drawdown()]: it is
    NaN when every value is missing, for one when the series is empty, and
    otherwise a number that is one of the values and that no value
    exceeds. *)
Theorem max_drawdown_is_greatest (s : pd.Series) (self : PricesSeriesAccessor) :
  __init__ s = Returns self ->
  exists (d : pd.Series),
    result (drawdown false) self = Returns d /\
    ((Forall (fun v => v = NaN) (pd.values d) /\
      result (max_drawdown false) self = Returns NaN) \/
     (exists m : Q,
         result (max_drawdown false) self = Returns (Fin m) /\
         In (Fin m) (pd.values d) /\
         forall q, In (Fin q) (pd.values d) -> (q <= m)%Q)).
Proof.
  intros Hinit.
  pose proof (constructed_positive s self Hinit) as Hpos.
  eexists. split; [apply drawdown_false_value|].
  rewrite max_drawdown_false_value.
  rewrite values_with_values by (rewrite drawdown_values_length; apply values_length).
  destruct (reduce_vmax_skipna 0 1 _ (drawdown_values_bounds _ Hpos))
    as [[Hall Hr] | (r & Hr & Hin & Hmax)].
  - left. split; [exact Hall | now rewrite Hr].
  - right. exists r. split; [now rewrite Hr|]. split; assumption.
Qed.

Lemma max_drawdown_is_greatest_witness :
  exists (d : pd.Series),
    result (drawdown false) {| _series := sample_100_80_120 |} = Returns d /\
    ((Forall (fun v => v = NaN) (pd.values d) /\
      result (max_drawdown false) {| _series := sample_100_80_120 |} = Returns NaN) \/
     (exists m : Q,
         result (max_drawdown false) {| _series := sample_100_80_120 |} = Returns (Fin m) /\
         In (Fin m) (pd.values d) /\
         forall q, In (Fin q) (pd.values d) -> (q <= m)%Q)).
Proof.
  exact (max_drawdown_is_greatest accepted_sample
           {| _series := sample_100_80_120 |} eq_refl).
Defined.

(** A list of numbers never falls when each is at least every earlier one. *)
Lemma sorted_iff_highs (ps : list Q) :
  StronglySorted Qle ps <->
  forall i p, nth_error ps i = Some p -> Forall (fun x => (x <= p)%Q) (firstn (S i) ps).
Proof.
  induction ps as [|x t IH].
  - split; [intros _ [|i] p; discriminate | constructor].
  - split.
    + intros Hs. apply StronglySorted_inv in Hs as [Hs Hx].
      intros [|i] p; simpl.
      * intros [= ->]. repeat constructor. apply Qle_refl.
      * intros Hp. constructor.
        { rewrite Forall_forall in Hx. eapply Hx, nth_error_In, Hp. }
        exact (proj1 IH Hs i p Hp).
    + intros H. constructor.
      * apply IH. intros i p Hp. specialize (H (S i) p Hp).
        simpl in H. now apply Forall_inv_tail in H.
      * apply Forall_forall. intros y Hy. apply In_nth_error in Hy as (i & Hi).
        specialize (H (S i) y Hi). simpl in H. now apply Forall_inv in H.
Qed.

(** X12: on a series of finite prices that is not empty, [max_drawdown()]
    is 0 exactly when the prices, in label order, never fall. *)
Theorem no_drawdown_iff_never_falls
    (s : pd.Series) (self : PricesSeriesAccessor) (ps : list Q) :
  __init__ s = Returns self ->
  pd.values (_series self) = map Fin ps ->
  ps <> [] ->
  (StronglySorted Qle ps <-> result (max_drawdown false) self = Returns (Fin 0)).
Proof.
  intros Hinit Hps Hps_ne.
  destruct (constructed_prices s self ps Hinit Hps) as [Hpos _].
  destruct (drawdown_maximum self ps Hps Hpos Hps_ne) as (m & Hm & Hin & Hmax).
  rewrite (max_drawdown_false_result self ps Hps Hpos), Hm, sorted_iff_highs.
  assert (Hat : forall i p, nth_error ps i = Some p ->
                  exists mi, (0 < mi)%Q /\
                    Forall (fun x => (x <= mi)%Q) (firstn (S i) ps) /\
                    In mi (firstn (S i) ps) /\ (p <= mi)%Q /\
                    In (Fin (Qred ((mi - p) / mi))) (pd.values (drawdown_of self ps))).
  { intros i p Hp.
    destruct (drawdown_of_at self ps Hps i p Hp) as (mi & Hmi & Hnth).
    exists mi. split; [exact (running_maximum_positive ps i mi Hpos Hmi)|].
    destruct Hmi as [Hmin Hmall]. split; [exact Hmall|]. split; [exact Hmin|].
    split.
    - rewrite Forall_forall in Hmall. exact (Hmall _ (nth_error_In_firstn ps i p Hp)).
    - eapply nth_error_In, Hnth. }
  split.
  - intros Hhighs. do 2 f_equal.
    apply In_nth_error in Hin as (i & Hi).
    assert (Hlt : (i < List.length ps)%nat).
    { rewrite <- (peaks_length ps), <- (length_map drawdown_at),
        <- (drawdown_of_values self ps Hps).
      apply nth_error_Some. congruence. }
    destruct (nth_error ps i) as [p|] eqn:Hp; [|apply nth_error_None in Hp; lia].
    destruct (drawdown_of_at self ps Hps i p Hp) as (mi & Hmi & Hnth).
    rewrite Hnth in Hi. injection Hi as <-.
    apply (drawdown_zero_iff mi p (running_maximum_positive ps i mi Hpos Hmi)).
    destruct Hmi as [Hmin Hmall].
    specialize (Hhighs i p Hp). rewrite Forall_forall in Hhighs, Hmall.
    pose proof (Hhighs _ Hmin). pose proof (Hmall _ (nth_error_In_firstn ps i p Hp)).
    simpl in *. lra.
  - intros [= ->] i p Hp.
    destruct (Hat i p Hp) as (mi & Hmi0 & Hmall & _ & Hle & Hval).
    specialize (Hmax _ Hval). rewrite Qred_correct in Hmax.
    assert (H0 : (0 <= (mi - p) / mi)%Q) by (apply Qle_shift_div_l; [exact Hmi0 | lra]).
    assert (Hz : ((mi - p) / mi == 0)%Q) by lra.
    assert (E : (mi == p)%Q).
    { apply (drawdown_zero_iff mi p Hmi0). change 0%Q with (Qred 0).
      now apply Qred_complete. }
    eapply Forall_impl; [|exact Hmall]. intros x Hx. simpl in Hx. lra.
Qed.

Lemma no_drawdown_iff_never_falls_witness :
  StronglySorted Qle [inject_Z 10; inject_Z 20; inject_Z 40] <->
  result (max_drawdown false) {| _series := sample_10_20_40 |} = Returns (Fin 0).
Proof.
  assert (Hne : [inject_Z 10; inject_Z 20; inject_Z 40] <> []) by discriminate.
  exact (no_drawdown_iff_never_falls sample_10_20_40
           {| _series := sample_10_20_40 |}
           [inject_Z 10; inject_Z 20; inject_Z 40] eq_refl eq_refl Hne).
Defined.

(* ------------------------------------------------------------------ *)
(** ** Percentage returns: where the missing values are *)

(** When exactly the rows from position [k] on hold NaN, [dropna] keeps
    the first [k]. *)
Lemma filter_notna_firstn (l : list (Z * value)) (k : nat) :
  (forall i r, nth_error l i = Some r -> isna (snd r) = negb (i <? k)%nat) ->
  filter (fun r => notna (snd r)) l = firstn k l.
Proof.
  revert k. induction l as [|r t IH]; intros k H.
  - now rewrite firstn_nil.
  - pose proof (H 0%nat r eq_refl) as H0. cbn [filter]. unfold notna at 1. rewrite H0.
    destruct k as [|k].
    + cbn [Nat.ltb Nat.leb negb firstn].
      rewrite (IH 0%nat); [apply firstn_O|].
      intros i r' Hi. now rewrite (H (S i) r' Hi).
    + cbn [Nat.ltb Nat.leb negb firstn]. f_equal. apply IH.
      intros i r' Hi. now rewrite (H (S i) r' Hi).
Qed.

Lemma lagged_backward {A : Type} (l : list A) (periods : Z) (i : nat) :
  periods < 0 -> (i < List.length l)%nat ->
  (lagged l periods i = None <-> (List.length l - Z.to_nat (- periods) <= i)%nat).
Proof.
  intros Hp Hi. unfold lagged.
  destruct (Z.ltb_spec (Z.of_nat i - periods) 0) as [Hj|Hj]; [lia|]. cbn [orb].
  destruct (Z.leb_spec (Z.of_nat (List.length l)) (Z.of_nat i - periods)).
  - split; [lia | reflexivity].
  - rewrite nth_error_None. lia.
Qed.

Lemma pct_change_row (self : PricesSeriesAccessor) (ps : list Q) (periods : Z)
    (i : nat) (r : Z * value) :
  pd.values (_series self) = map Fin ps ->
  Forall (fun p => (0 < p)%Q) ps ->
  nth_error (pd.rows (pct_change_of self ps periods)) i = Some r ->
  (i < List.length ps)%nat /\
  exists p, nth_error ps i = Some p /\ snd r = pct_of p (lagged ps periods i).
Proof.
  intros Hps Hpos Hr.
  assert (Hv : nth_error (pd.values (pct_change_of self ps periods)) i = Some (snd r)).
  { unfold pd.values. now rewrite nth_error_map, Hr. }
  rewrite (pct_change_of_values self ps Hps) in Hv.
  assert (Hi : (i < List.length ps)%nat).
  { rewrite (len_prices _ ps Hps), <- (pct_change_values_length self ps Hps periods).
    apply nth_error_Some. congruence. }
  split; [exact Hi|].
  destruct (nth_error ps i) as [p|] eqn:E; [|apply nth_error_None in E; lia].
  exists p. split; [reflexivity|].
  rewrite (pct_change_at ps Hpos periods i p E) in Hv. now injection Hv.
Qed.

Lemma pct_change_rows_length (self : PricesSeriesAccessor) (ps : list Q) (periods : Z) :
  pd.values (_series self) = map Fin ps ->
  List.length (pd.rows (pct_change_of self ps periods)) = List.length ps.
Proof.
  intros Hps. change (List.length (pd.rows ?x)) with (pd.len x).
  rewrite <- values_length, (pct_change_of_values self ps Hps),
    (pct_change_values_length self ps Hps). symmetry. now apply len_prices.
Qed.

(** X13: on a series of finite prices, with a negative period
    [pct_returns] compares each price with the one [-period] positions
    later, so the missing values are the last [-period] ones, and [dropna]
    leaves out those last rows. *)
Theorem pct_returns_backward
    (s : pd.Series) (self : PricesSeriesAccessor) (ps : list Q) (period : Z) :
  __init__ s = Returns self ->
  pd.values (_series self) = map Fin ps ->
  period < 0 ->
  exists (d : pd.Series),
    result (pct_returns period false) self = Returns d /\
    (forall i p, nth_error ps i = Some p ->
       nth_error (pd.values d) i
       = Some (match nth_error ps (i + Z.to_nat (- period)) with
               | Some q => Fin (Qred (p / q - 1))
               | None => NaN
               end)) /\
    result (pct_returns period true) self = Returns (pd.dropna d) /\
    pd.rows (pd.dropna d) = firstn (List.length ps - Z.to_nat (- period)) (pd.rows d).
Proof.
  intros Hinit Hps Hneg.
  destruct (constructed_prices s self ps Hinit Hps) as [Hpos _].
  exists (pct_change_of self ps period).
  split; [exact (pct_returns_result self ps Hps period false)|].
  split.
  { intros i p Hp.
    rewrite (pct_change_of_values self ps Hps), (pct_change_at ps Hpos period i p Hp).
    f_equal. unfold lagged.
    destruct (Z.ltb_spec (Z.of_nat i - period) 0) as [Hj|Hj]; [lia|]. cbn [orb].
    replace (Z.to_nat (Z.of_nat i - period)) with (i + Z.to_nat (- period))%nat by lia.
    destruct (Z.leb_spec (Z.of_nat (List.length ps)) (Z.of_nat i - period)) as [Hn|Hn].
    - assert (E : nth_error ps (i + Z.to_nat (- period)) = None)
        by (apply nth_error_None; lia).
      now rewrite E.
    - reflexivity. }
  split; [exact (pct_returns_result self ps Hps period true)|].
  unfold pd.dropna. cbn [pd.rows]. apply filter_notna_firstn. intros i r Hr.
  destruct (pct_change_row self ps period i r Hps Hpos Hr) as (Hi & p & Hp & ->).
  pose proof (lagged_backward ps period i Hneg Hi) as Hl.
  destruct (lagged ps period i) as [q|]; cbn [pct_of isna].
  - symmetry. apply negb_false_iff, Nat.ltb_lt.
    destruct (Nat.lt_ge_cases i (List.length ps - Z.to_nat (- period))) as [|Hge];
      [assumption|].
    apply Hl in Hge. discriminate.
  - symmetry. apply negb_true_iff, Nat.ltb_ge. now apply Hl.
Qed.

Lemma pct_returns_backward_witness :
  exists (d : pd.Series),
    result (pct_returns (-1) false) {| _series := sample_100_80_120 |} = Returns d /\
    result (pct_returns (-1) true) {| _series := sample_100_80_120 |}
    = Returns (pd.dropna d) /\
    pd.rows (pd.dropna d) = firstn (3 - Z.to_nat (- (-1))) (pd.rows d).
Proof.
  assert (Hneg : -1 < 0) by reflexivity.
  destruct (pct_returns_backward accepted_sample
              {| _series := sample_100_80_120 |}
              [inject_Z 100; inject_Z 80; inject_Z 120] (-1) eq_refl eq_refl Hneg)
    as (d & H2 & _ & H3 & H4).
  exists d. split; [exact H2|]. split; [exact H3 | exact H4].
Defined.

(** X14: on a series of finite prices, [pct_returns(period, dropna=True)]
    has as many rows as the stored series less the size of the period,
    and none when the period, forward or backward, is as long as the
    series. *)
Theorem pct_returns_dropna_length
    (s : pd.Series) (self : PricesSeriesAccessor) (ps : list Q) (period : Z) :
  __init__ s = Returns self ->
  pd.values (_series self) = map Fin ps ->
  exists d,
    result (pct_returns period true) self = Returns d /\
    pd.len d = (pd.len (_series self) - Z.abs_nat period)%nat /\
    (Z.of_nat (pd.len (_series self)) <= Z.abs period -> pd.rows d = []).
Proof.
  intros Hinit Hps.
  destruct (constructed_prices s self ps Hinit Hps) as [Hpos _].
  exists (pd.dropna (pct_change_of self ps period)).
  split; [exact (pct_returns_result self ps Hps period true)|].
  pose proof (pct_change_rows_length self ps period Hps) as Hlen.
  pose proof (len_prices _ ps Hps) as Hn.
  assert (Hrows : List.length (pd.rows (pd.dropna (pct_change_of self ps period)))
                  = (List.length ps - Z.abs_nat period)%nat).
  { destruct (Z.lt_ge_cases period 0) as [Hneg|Hnn].
    - unfold pd.dropna. cbn [pd.rows].
      rewrite (filter_notna_firstn _ (List.length ps - Z.to_nat (- period))).
      + rewrite length_firstn, Hlen. lia.
      + intros i r Hr.
        destruct (pct_change_row self ps period i r Hps Hpos Hr) as (Hi & p & Hp & ->).
        pose proof (lagged_backward ps period i Hneg Hi) as Hl.
        destruct (lagged ps period i) as [q|]; cbn [pct_of isna].
        * symmetry. apply negb_false_iff, Nat.ltb_lt.
          destruct (Nat.lt_ge_cases i (List.length ps - Z.to_nat (- period))) as [|Hge];
            [assumption|].
          apply Hl in Hge. discriminate.
        * symmetry. apply negb_true_iff, Nat.ltb_ge. now apply Hl.
    - rewrite (pct_change_head self ps Hps Hpos period) by lia.
      rewrite length_skipn, Hlen. lia. }
  split.
  - unfold pd.len. rewrite Hrows. fold (pd.len (_series self)). lia.
  - intros Hbig. apply length_zero_iff_nil. rewrite Hrows.
    fold (pd.len (_series self)) in Hn. lia.
Qed.

Lemma pct_returns_dropna_length_witness :
  exists d,
    result (pct_returns 5 true) {| _series := sample_100_80_120 |} = Returns d /\
    pd.len d = (pd.len sample_100_80_120 - Z.abs_nat 5)%nat /\
    pd.rows d = [].
Proof.
  destruct (pct_returns_dropna_length accepted_sample
              {| _series := sample_100_80_120 |}
              [inject_Z 100; inject_Z 80; inject_Z 120] 5 eq_refl eq_refl)
    as (d & H1 & H2 & H3).
  exists d. split; [exact H1|]. split; [exact H2|]. apply H3. discriminate.
Defined.

Lemma pct_of_same (p : Q) : (0 < p)%Q -> pct_of p (Some p) = Fin 0.
Proof.
  intros Hp. unfold pct_of. f_equal. change 0%Q with (Qred 0). apply Qred_complete.
  unfold Qdiv. rewrite Qmult_inv_r by lra. ring.
Qed.

Lemma filter_all {A : Type} (f : A -> bool) (l : list A) :
  (forall a, In a l -> f a = true) -> filter f l = l.
Proof.
  induction l as [|a t IH]; intros H; simpl; [reflexivity|].
  rewrite (H a) by now left. f_equal. apply IH. intros; apply H; now right.
Qed.

(** X15: on a series of finite prices, with period 0 every price is
    compared with itself: [pct_returns(0)] is 0 at every position, and
    [dropna] leaves out nothing. *)
Theorem pct_returns_period_zero
    (s : pd.Series) (self : PricesSeriesAccessor) (ps : list Q) :
  __init__ s = Returns self ->
  pd.values (_series self) = map Fin ps ->
  exists d,
    result (pct_returns 0 false) self = Returns d /\
    result (pct_returns 0 true) self = Returns d /\
    pd.index d = pd.index (_series self) /\
    Forall (fun v => v = Fin 0) (pd.values d).
Proof.
  intros Hinit Hps.
  destruct (constructed_prices s self ps Hinit Hps) as [Hpos _].
  assert (Hzero : Forall (fun v => v = Fin 0) (pd.values (pct_change_of self ps 0))).
  { apply Forall_forall. intros v Hv. apply In_nth_error in Hv as (i & Hi).
    rewrite (pct_change_of_values self ps Hps) in Hi.
    assert (Hlt : (i < List.length ps)%nat).
    { rewrite (len_prices _ ps Hps), <- (pct_change_values_length self ps Hps 0).
      apply nth_error_Some. congruence. }
    destruct (nth_error ps i) as [p|] eqn:Hp; [|apply nth_error_None in Hp; lia].
    rewrite (pct_change_at ps Hpos 0 i p Hp) in Hi. injection Hi as <-.
    assert (E : lagged ps 0 i = Some p).
    { unfold lagged. rewrite Z.sub_0_r.
      destruct (Z.ltb_spec (Z.of_nat i) 0); [lia|].
      destruct (Z.leb_spec (Z.of_nat (List.length ps)) (Z.of_nat i)); [lia|].
      cbn [orb]. now rewrite Nat2Z.id. }
    rewrite E. apply pct_of_same.
    rewrite Forall_forall in Hpos. eapply Hpos, nth_error_In, Hp. }
  exists (pct_change_of self ps 0).
  split; [exact (pct_returns_result self ps Hps 0 false)|].
  split.
  { rewrite (pct_returns_result self ps Hps 0 true). f_equal.
    destruct (pct_change_of self ps 0) as [dt rows] eqn:E.
    unfold pd.dropna. cbn [pd.index_dtype_of pd.rows]. f_equal.
    apply filter_all. intros r Hr.
    unfold pd.values in Hzero. cbn [pd.rows] in Hzero.
    rewrite Forall_forall in Hzero.
    now rewrite (Hzero (snd r) (in_map snd _ _ Hr)). }
  split; [exact (pct_change_of_index self ps Hps 0) | exact Hzero].
Qed.

Lemma pct_returns_period_zero_witness :
  exists d,
    result (pct_returns 0 false) {| _series := sample_100_80_120 |} = Returns d /\
    result (pct_returns 0 true) {| _series := sample_100_80_120 |} = Returns d /\
    Forall (fun v => v = Fin 0) (pd.values d).
Proof.
  destruct (pct_returns_period_zero accepted_sample
              {| _series := sample_100_80_120 |}
              [inject_Z 100; inject_Z 80; inject_Z 120] eq_refl eq_refl)
    as (d & H1 & H2 & _ & H3).
  exists d. split; [exact H1|]. split; [exact H2 | exact H3].
Defined.

Lemma at_position_last_nth {A : Type} (l : list A) (x : A) :
  nth_error l (List.length l - 1) = Some x -> pd.at_position l (-1) = Returns x.
Proof.
  intros H.
  destruct (exists_last (l := l)) as (t & y & ->).
  { intros ->. discriminate. }
  rewrite length_app in H. simpl in H.
  replace (List.length t + 1 - 1)%nat with (List.length t) in H by lia.
  rewrite nth_error_app2, Nat.sub_diag in H by lia. injection H as <-.
  apply at_position_last.
Qed.

Lemma stored_values_ends (s : pd.Series) (kf kl : Z) (vf vl : value) :
  _validate s = Returns tt ->
  earliest s kf vf -> latest s kl vl ->
  nth_error (pd.values (stored s)) 0 = Some vf /\
  nth_error (pd.values (stored s)) (List.length (pd.values (stored s)) - 1) = Some vl.
Proof.
  intros Hvalid Hf Hl.
  destruct (stored_first s Hvalid _ _ Hf) as (t & Et).
  destruct (stored_last s Hvalid _ _ Hl) as (t' & Et').
  unfold pd.values. split.
  - now rewrite Et.
  - rewrite Et', map_app, length_app. cbn [map snd List.length].
    rewrite nth_error_app2 by lia.
    replace (List.length (map snd t') + 1 - 1 - List.length (map snd t'))%nat
      with 0%nat by lia.
    reflexivity.
Qed.

(** X16: the change over the whole series is the absolute return: on a
    series of [n] rows, [n] at least 1, the last value of
    [pct_returns(n - 1)] is what [abs_return()] returns. *)
Theorem pct_returns_over_whole_series (s : pd.Series) (self : PricesSeriesAccessor) :
  __init__ s = Returns self ->
  pd.rows s <> [] ->
  exists (d : pd.Series) (r : value),
    result (pct_returns (Z.of_nat (pd.len (_series self)) - 1) false) self = Returns d /\
    pd.iat d (-1) = Returns r /\
    result abs_return self = Returns r.
Proof.
  intros Hinit Hne.
  pose proof (constructed_positive s self Hinit) as Hpos.
  assert (Hnotna : Forall (fun v => isna v = false) (pd.values (_series self))).
  { eapply Forall_impl; [|exact Hpos]. apply positive_notna. }
  apply init_returns in Hinit as [Hvalid ->].
  change (pd.sort_index s) with (stored s) in *. cbn [_series] in *.
  destruct (constructed_ends s Hne) as (kf & vf & kl & vl & Hf & Hl).
  destruct (stored_values_ends s kf kl vf vl Hvalid Hf Hl) as [Hfirst Hlast].
  rewrite <- values_length.
  set (vs := pd.values (stored s)) in *.
  set (period := Z.of_nat (List.length vs) - 1).
  eexists. exists (vsub (vdiv vl vf) (of_int 1)).
  split; [exact (pct_returns_value {| _series := stored s |} Hnotna period false)|].
  split; [|exact (abs_return_value s kf kl vf vl Hvalid Hf Hl)].
  unfold pd.iat. cbn [_series]. fold vs.
  rewrite (values_with_values (stored s) (pct_values vs period))
    by (rewrite pct_values_length; apply values_length).
  apply at_position_last_nth. rewrite pct_values_length.
  rewrite (pct_values_at vs period _ vl Hlast). f_equal.
  assert (E : lagged vs period (List.length vs - 1) = Some vf).
  { unfold lagged, period.
    assert (0 < List.length vs)%nat.
    { destruct vs; [discriminate | simpl; lia]. }
    replace (Z.of_nat (List.length vs - 1) - (Z.of_nat (List.length vs) - 1)) with 0 by lia.
    destruct (Z.leb_spec (Z.of_nat (List.length vs)) 0); [lia|]. exact Hfirst. }
  now rewrite E.
Qed.

Lemma pct_returns_over_whole_series_witness :
  exists (d : pd.Series) (r : value),
    result (pct_returns 2 false) {| _series := sample_100_80_120 |} = Returns d /\
    pd.iat d (-1) = Returns r /\
    result abs_return {| _series := sample_100_80_120 |} = Returns r.
Proof.
  assert (Hne : pd.rows accepted_sample <> []) by discriminate.
  exact (pct_returns_over_whole_series accepted_sample
           {| _series := sample_100_80_120 |} eq_refl Hne).
Defined.


(* ------------------------------------------------------------------ *)
(** ** Logarithmic returns *)

Lemma lagged_map {A B : Type} (f : A -> B) (l : list A) (periods : Z) (i : nat) :
  lagged (map f l) periods i = option_map f (lagged l periods i).
Proof.
  unfold lagged. rewrite length_map. destruct (_ || _); [reflexivity|].
  apply nth_error_map.
Qed.

Section LogReturns.

Variable np_log : value -> value.

Lemma log_returns_result (self : PricesSeriesAccessor) (period : Z) (dropna : bool) :
  result (log_returns np_log period dropna) self
  = Returns (if dropna
             then pd.dropna (pd.diff (pd.apply (_series self) np_log) period)
             else pd.diff (pd.apply (_series self) np_log) period).
Proof.
  unfold log_returns. rewrite result_bind.
  cbn [result self_series fst after snd obind]. now destruct dropna.
Qed.

Lemma apply_values (s : pd.Series) : pd.values (pd.apply s np_log) = map np_log (pd.values s).
Proof. apply values_with_values. rewrite length_map. apply values_length. Qed.

Lemma shift_values_of (s : pd.Series) (period : Z) :
  pd.values (pd.shift s period) = pd.shift_values period (pd.values s).
Proof. apply values_with_values. rewrite shift_values_length. apply values_length. Qed.

Lemma diff_length (s : pd.Series) (period : Z) :
  List.length (map (fun x => vsub (fst x) (snd x))
                   (combine (pd.values s) (pd.values (pd.shift s period))))
  = pd.len s.
Proof.
  rewrite length_map, length_combine, shift_values_of, shift_values_length, Nat.min_id.
  apply values_length.
Qed.

Lemma diff_apply_values (s : pd.Series) (period : Z) :
  pd.values (pd.diff (pd.apply s np_log) period)
  = map (fun x => vsub (fst x) (snd x))
        (combine (map np_log (pd.values s))
                 (pd.shift_values period (map np_log (pd.values s)))).
Proof.
  unfold pd.diff, pd.sub.
  rewrite values_with_values by apply diff_length.
  now rewrite shift_values_of, apply_values.
Qed.

Lemma diff_apply_index (s : pd.Series) (period : Z) :
  pd.index (pd.diff (pd.apply s np_log) period) = pd.index s.
Proof.
  unfold pd.diff, pd.sub.
  rewrite index_with_values by apply diff_length.
  apply index_with_values. rewrite length_map. apply values_length.
Qed.

(** X17: [log_returns(period)] returns a series over the stored index
    whose value at each position is the logarithm of the price there minus
    the logarithm of the price [period] positions earlier, and NaN where
    there is no such price; with [dropna] the rows holding NaN are left
    out.  When the logarithm of every price of the series is a finite
    number and the period is not negative, these are the first [period]
    rows. *)
Theorem log_returns_by_period (s : pd.Series) (self : PricesSeriesAccessor) (period : Z) :
  __init__ s = Returns self ->
  exists (d : pd.Series),
    result (log_returns np_log period false) self = Returns d /\
    pd.index d = pd.index (_series self) /\
    (forall i v, nth_error (pd.values (_series self)) i = Some v ->
       nth_error (pd.values d) i
       = Some (match lagged (pd.values (_series self)) period i with
               | Some w => vsub (np_log v) (np_log w)
               | None => NaN
               end)) /\
    result (log_returns np_log period true) self = Returns (pd.dropna d) /\
    Forall (fun v => isna v = false) (pd.values (pd.dropna d)) /\
    ((forall v, In v (pd.values (_series self)) -> finite (np_log v)) ->
     0 <= period ->
     pd.rows (pd.dropna d) = skipn (Z.to_nat period) (pd.rows d)).
Proof.
  intros _.
  set (vs := pd.values (_series self)).
  set (d := pd.diff (pd.apply (_series self) np_log) period).
  assert (Hat : forall i v, nth_error vs i = Some v ->
                  nth_error (pd.values d) i
                  = Some (match lagged vs period i with
                          | Some w => vsub (np_log v) (np_log w)
                          | None => NaN
                          end)).
  { intros i v Hv. unfold d. rewrite diff_apply_values. fold vs.
    rewrite nth_error_map.
    assert (Hi : (i < List.length (map np_log vs))%nat).
    { rewrite length_map. apply nth_error_Some. congruence. }
    rewrite (nth_error_combine _ _ i (np_log v)
               (or_NaN (lagged (map np_log vs) period i))).
    - cbn [option_map fst snd]. f_equal. rewrite lagged_map.
      destruct (lagged vs period i) as [w|]; cbn [option_map or_NaN]; [reflexivity|].
      now destruct (np_log v).
    - now rewrite nth_error_map, Hv.
    - now apply shift_values_nth. }
  exists d.
  split; [exact (log_returns_result self period false)|].
  split; [apply diff_apply_index|].
  split; [exact Hat|].
  split; [exact (log_returns_result self period true)|].
  split; [apply dropna_notna|].
  intros Hlog Hperiod. unfold pd.dropna. cbn [pd.rows].
  apply filter_notna_skipn. intros i r Hr.
  assert (Hv : nth_error (pd.values d) i = Some (snd r)).
  { unfold pd.values. now rewrite nth_error_map, Hr. }
  assert (Hi : (i < List.length vs)%nat).
  { assert (Hlen : List.length (pd.values d) = List.length vs).
    { unfold d. rewrite diff_apply_values. fold vs.
      now rewrite length_map, length_combine, shift_values_length, Nat.min_id, length_map. }
    rewrite <- Hlen. apply nth_error_Some. congruence. }
  destruct (nth_error vs i) as [v|] eqn:Hp; [|apply nth_error_None in Hp; lia].
  rewrite (Hat i v Hp) in Hv. injection Hv as <-.
  pose proof (lagged_forward vs period i Hperiod Hi) as Hl.
  destruct (lagged vs period i) as [w|] eqn:Hw.
  - destruct (Hlog v (nth_error_In _ _ Hp)) as (a & ->).
    destruct (Hlog w (lagged_In _ _ _ _ Hw)) as (b & ->).
    cbn [vsub isna]. symmetry. apply Nat.ltb_ge.
    destruct (Nat.lt_ge_cases i (Z.to_nat period)) as [Hlt|]; [|assumption].
    apply Hl in Hlt. discriminate.
  - cbn [isna]. symmetry. apply Nat.ltb_lt. now apply Hl.
Qed.

End LogReturns.

Lemma log_returns_by_period_witness :
  exists (d : pd.Series),
    result (log_returns (fun v => v) 1 false) {| _series := sample_100_80_120 |}
    = Returns d /\
    result (log_returns (fun v => v) 1 true) {| _series := sample_100_80_120 |}
    = Returns (pd.dropna d) /\
    pd.rows (pd.dropna d) = skipn 1 (pd.rows d).
Proof.
  destruct (log_returns_by_period (fun v => v) accepted_sample
              {| _series := sample_100_80_120 |} 1 eq_refl)
    as (d & H2 & _ & _ & H3 & _ & H4).
  exists d. split; [exact H2|]. split; [exact H3|].
  apply H4; [|discriminate].
  intros v [<-|[<-|[<-|[]]]]; eexists; reflexivity.
Defined.

(* ------------------------------------------------------------------ *)
(** ** Rebasing to a base that is not positive *)

Lemma of_int_not_positive (base : Z) : base <= 0 -> ~ positive (of_int base).
Proof.
  intros Hbase [H | (q & [= <-] & Hq)]; [discriminate|].
  assert (inject_Z base <= 0)%Q
    by (change 0%Q with (inject_Z 0); now rewrite <- Zle_Qle).
  lra.
Qed.

(** A positive value over itself, times a base that is not positive, is
    not a positive value. *)
Lemma rebased_value_not_positive (v : value) (base : Z) :
  positive v -> base <= 0 -> ~ positive (rebased_value v base v).
Proof.
  intros [-> | (p & -> & Hp)] Hbase.
  - apply NaN_not_positive.
  - rewrite rebased_value_first by exact Hp. now apply of_int_not_positive.
Qed.

(** X19: rebasing with a base that is zero or negative gives a series
    that construction refuses with the price error: its first value, the
    base or, after an infinite first price, NaN, is not positive. *)
Theorem rebase_to_bad_base (s : pd.Series) (self : PricesSeriesAccessor) (base : Z) :
  __init__ s = Returns self ->
  pd.rows s <> [] ->
  base <= 0 ->
  exists (d : pd.Series) (v : value),
    result (rebase base) self = Returns d /\
    pd.iat d 0 = Returns v /\
    ~ positive v /\
    __init__ d = Raises (ValueError msg_prices).
Proof.
  intros Hinit Hne Hbase. pose proof Hinit as [Hvalid ->]%init_returns.
  change (pd.sort_index s) with (stored s).
  destruct (earliest_exists s Hne) as (kf & vf & Hfirst).
  pose proof (valid_row_positive s kf vf Hvalid (proj1 Hfirst)) as Hvf.
  destruct (stored_first s Hvalid _ _ Hfirst) as (t & E).
  assert (Hvs : pd.values (stored s) = vf :: map snd t).
  { unfold pd.values. now rewrite E. }
  eexists. exists (rebased_value vf base vf).
  split; [exact (rebase_value s kf vf Hvalid Hfirst base)|].
  assert (Hat : pd.iat (pd.with_values (stored s)
                          (map (rebased_value vf base) (pd.values (stored s)))) 0
                = Returns (rebased_value vf base vf)).
  { unfold pd.iat. rewrite rebase_value_values, Hvs. apply at_position_first. }
  split; [exact Hat|].
  split; [now apply rebased_value_not_positive|].
  apply init_raises, validate_prices.
  - apply datetime_indexed_dtype.
    now apply validate_returns in Hvalid as (Hdt%datetime_indexed_dtype & _).
  - apply unique_NoDup. rewrite rebase_value_index. simpl.
    apply sort_rows_labels_NoDup.
    now apply validate_returns in Hvalid as (_ & Hnd & _).
  - intros Hall. rewrite rebase_value_values, Hvs in Hall.
    apply Forall_inv in Hall.
    exact (rebased_value_not_positive vf base Hvf Hbase Hall).
Qed.

Lemma rebase_to_bad_base_witness :
  exists (d : pd.Series) (v : value),
    result (rebase 0) {| _series := sample_100_80_120 |} = Returns d /\
    pd.iat d 0 = Returns v /\
    ~ positive v /\
    __init__ d = Raises (ValueError msg_prices).
Proof.
  assert (Hne : pd.rows accepted_sample <> []) by discriminate.
  assert (Hb : 0 <= 0) by discriminate.
  exact (rebase_to_bad_base accepted_sample {| _series := sample_100_80_120 |} 0
           eq_refl Hne Hb).
Defined.
